(** * noggles-board: PlaceholderImage and the Banner floating-image spawner

    A shallow embedding of [src/components/PlaceholderImage.tsx] and
    [src/components/Banner.tsx].

    Conventions of the embedding:
    - a JavaScript [number] is the rational it denotes ([Q]).  Every
      arithmetic operation on numbers rounds its exact result to binary64,
      to nearest with ties to even ([round64], and [add64], [sub64], [mul64]
      on top of it); a decimal literal is the double nearest to it
      ([literal]); comparisons, [Math.max] and [Math.floor] ([Qfloor]) are
      exact.  Infinity and NaN are outside the model: numbers stay finite.
      [Date.now()], timer deadlines, [zIndex] and array indices are integers
      ([Z] or [nat]) far below 2^53, where binary64 is exact;
    - [undefined] is [None]: an optional prop, or an array read out of range;
    - [Math.random()] reads the next entry of a stream [rnd : nat -> Q]; the
      cursor into the stream is part of the state;
    - [setTimeout]/[clearTimeout] act on a table of pending timers kept in
      the state; the event loop runs every timer that is due before it
      delivers the next DOM event. *)

From Stdlib Require Import ZArith QArith Qround Qminmax Qpower.
From Stdlib Require Import List String Bool Lia Lqa.
From Stdlib Require Import DecimalString DecimalZ DecimalPos.
Import ListNotations.

Local Open Scope string_scope.
Local Open Scope list_scope.

(** ** JavaScript helpers *)

(** A destructuring default: [{ width = 800 }] takes the default exactly
    when the property is [undefined]. *)
Definition withDefault {A : Type} (d : A) (o : option A) : A :=
  match o with
  | Some v => v
  | None => d
  end.

(** [arr.slice(-n)]: the last [n] elements, the whole array when it is
    shorter. *)
Definition sliceLast {A : Type} (n : nat) (l : list A) : list A :=
  skipn (List.length l - n) l.

(** [arr.map((v, index) => f v index)]. *)
Fixpoint mapiFrom {A B : Type} (f : A -> nat -> B) (i : nat) (l : list A)
  : list B :=
  match l with
  | [] => []
  | a :: r => f a i :: mapiFrom f (S i) r
  end.

Definition mapi {A B : Type} (f : A -> nat -> B) (l : list A) : list B :=
  mapiFrom f 0 l.

(** [`${n}`] for an integer [n]. *)
Definition stringOfZ (n : Z) : string :=
  NilZero.string_of_int (Z.to_int n).

(** [a > b] on numbers. *)
Definition Qgtb (a b : Q) : bool := negb (Qle_bool a b).

(** *** Binary64 arithmetic *)

(** [2^z] for an integer exponent. *)
Definition pow2 (z : Z) : Q := ((2 # 1) ^ z)%Q.

(** The integer nearest to [x], the even one when two are as near. *)
Definition roundHalfEven (x : Q) : Z :=
  let f := Qfloor x in
  match Qcompare (x - inject_Z f) (1 # 2) with
  | Lt => f
  | Gt => f + 1
  | Eq => if Z.even f then f else f + 1
  end%Z.

(** The exponent [e] with [2^e <= q < 2^(e+1)], for a positive [q]. *)
Definition ilog2 (q : Q) : Z :=
  let e0 := (Z.log2 (Qnum q) - Z.log2 (Z.pos (Qden q)))%Z in
  if Qle_bool (pow2 e0) q then e0 else (e0 - 1)%Z.

(** The spacing of the doubles around a positive [q]: 52 fraction bits,
    and the subnormal spacing [2^-1074] below [2^-1022]. *)
Definition ulp (q : Q) : Q := pow2 (Z.max (ilog2 q) (-1022) - 52).

Definition roundPositive (q : Q) : Q :=
  (inject_Z (roundHalfEven (q / ulp q)) * ulp q)%Q.

(** The double nearest to [q], ties to the even significand. *)
Definition round64 (q : Q) : Q :=
  Qred
    match Qcompare q 0 with
    | Eq => 0%Q
    | Gt => roundPositive q
    | Lt => (- roundPositive (- q))%Q
    end.

(** [a + b], [a - b] and [a * b] on numbers. *)
Definition add64 (a b : Q) : Q := round64 (a + b).
Definition sub64 (a b : Q) : Q := round64 (a - b).
Definition mul64 (a b : Q) : Q := round64 (a * b).

(** A decimal literal of the source, such as [0.8]. *)
Definition literal (q : Q) : Q := round64 q.

(** The number is a double. *)
Definition IsDouble (q : Q) : Prop := (round64 q == q)%Q.

(** The largest double below 1, [1 - 2^-53]. *)
Definition belowOne : Q := 9007199254740991 # 9007199254740992.

(** A piece of a template literal whose holes are numbers. *)
Inductive Piece : Type :=
| Lit (s : string)
| Num (q : Q).

(** ** PlaceholderImage.tsx *)

Module PlaceholderImage.

Record Props : Type := mkProps {
  width : option Q;
  height : option Q;
  color : option string;
  text : option string
}.

(** Calling the component with no props at all. *)
Definition noProps : Props := mkProps None None None None.

Record Rect : Type := mkRect {
  rect_width : string;
  rect_height : string;
  rect_fill : string
}.

Record Text : Type := mkText {
  text_x : string;
  text_y : string;
  textAnchor : string;
  dominantBaseline : string;
  text_fill : string;
  fontSize : string;
  fontFamily : string;
  text_children : string
}.

Record Svg : Type := mkSvg {
  svg_width : Q;
  svg_height : Q;
  xmlns : string;
  viewBox : list Piece;
  svg_rect : Rect;
  svg_text : Text
}.

(** The values bound by the destructuring parameter. *)
Record Resolved : Type := mkResolved {
  r_width : Q;
  r_height : Q;
  r_color : string;
  r_text : string
}.

Definition resolve (p : Props) : Resolved :=
  {| r_width := withDefault (800 # 1) (width p);
     r_height := withDefault (600 # 1) (height p);
     r_color := withDefault "3498db" (color p);
     r_text := withDefault "Image" (text p) |}.

Definition PlaceholderImage (p : Props) : Svg :=
  let r := resolve p in
  {| svg_width := r_width r;
     svg_height := r_height r;
     xmlns := "http://www.w3.org/2000/svg";
     viewBox := [Lit "0 0 "; Num (r_width r); Lit " "; Num (r_height r)];
     svg_rect :=
       {| rect_width := "100%";
          rect_height := "100%";
          rect_fill := ("#" ++ r_color r)%string |};
     svg_text :=
       {| text_x := "50%";
          text_y := "50%";
          textAnchor := "middle";
          dominantBaseline := "middle";
          text_fill := "white";
          fontSize := "24";
          fontFamily := "Arial, sans-serif";
          text_children := r_text r |} |}.

End PlaceholderImage.

(** ** Banner.tsx *)

Module Banner.

Local Open Scope Z_scope.

(** *** Props and data *)

Record BannerProps : Type := mkBannerProps {
  images : list string;
  altText : option string;
  autoRotateMs : option Q
}.

Record FloatingImage : Type := mkFloatingImage {
  id : string;
  src : option string;
  x : Q;
  y : Q;
  rotation : Q;
  scale : Q;
  zIndex : Z
}.

(** [Omit<FloatingImage, "id" | "src">]. *)
Record RandomImageProps : Type := mkRandomImageProps {
  rp_x : Q;
  rp_y : Q;
  rp_rotation : Q;
  rp_scale : Q;
  rp_zIndex : Z
}.

(** What a handler reads from its event and from
    [containerRef.current.getBoundingClientRect()]. *)
Record Pointer : Type := mkPointer {
  clientX : Q;
  clientY : Q;
  rectLeft : Q;
  rectTop : Q
}.

Definition localX (p : Pointer) : Q := sub64 (clientX p) (rectLeft p).
Definition localY (p : Pointer) : Q := sub64 (clientY p) (rectTop p).

(** *** Timers of the host *)

Inductive Callback : Type :=
| TrimToSix   (* () => setFloatingImages((prev) => prev.slice(-6)) *)
| ClearAll.   (* () => setFloatingImages([]) *)

Record Timer : Type := mkTimer {
  handle : nat;
  due : Z;
  callback : Callback
}.

(** *** State: the component's hooks, then the host's timer table and the
    cursor into the random stream *)

Record State : Type := mkState {
  floatingImages : list FloatingImage;
  mousePosition : Q * Q;
  containerRef : bool;          (* containerRef.current is an element *)
  imageCounter : Z;             (* imageCounter.current *)
  cleanupTimer : option nat;    (* cleanupTimer.current *)
  timers : list Timer;
  nextHandle : nat;
  rngPos : nat
}.

Definition updFloatingImages (f : list FloatingImage -> list FloatingImage)
  (s : State) : State :=
  mkState (f (floatingImages s)) (mousePosition s) (containerRef s)
    (imageCounter s) (cleanupTimer s) (timers s) (nextHandle s) (rngPos s).

Definition putMousePosition (m : Q * Q) (s : State) : State :=
  mkState (floatingImages s) m (containerRef s)
    (imageCounter s) (cleanupTimer s) (timers s) (nextHandle s) (rngPos s).

Definition putImageCounter (n : Z) (s : State) : State :=
  mkState (floatingImages s) (mousePosition s) (containerRef s)
    n (cleanupTimer s) (timers s) (nextHandle s) (rngPos s).

Definition putCleanupTimer (h : option nat) (s : State) : State :=
  mkState (floatingImages s) (mousePosition s) (containerRef s)
    (imageCounter s) h (timers s) (nextHandle s) (rngPos s).

Definition putTimers (l : list Timer) (s : State) : State :=
  mkState (floatingImages s) (mousePosition s) (containerRef s)
    (imageCounter s) (cleanupTimer s) l (nextHandle s) (rngPos s).

(** The updaters passed to [setFloatingImages]. *)

(** [(prev) => [...prev, newImage].slice(-12)] *)
Definition appendAndTrim (newImage : FloatingImage)
  (prev : list FloatingImage) : list FloatingImage :=
  sliceLast 12 (prev ++ [newImage]).

(** [(prev) => prev.slice(-6)] *)
Definition trimToSix (prev : list FloatingImage) : list FloatingImage :=
  sliceLast 6 prev.

(** [(prev) => [...prev.slice(-3), newImage]] *)
Definition keepThreeAnd (newImage : FloatingImage)
  (prev : list FloatingImage) : list FloatingImage :=
  sliceLast 3 prev ++ [newImage].

(** *** Handler monad: a handler body is a state transformer *)

Definition Handler (A : Type) : Type := State -> A * State.

Definition ret {A : Type} (a : A) : Handler A := fun s => (a, s).

Definition bind {A B : Type} (m : Handler A) (k : A -> Handler B)
  : Handler B :=
  fun s => let r := m s in k (fst r) (snd r).

Notation "v <- m ;; k" := (bind m (fun v => k))
  (at level 61, m at next level, right associativity).
Notation "m ;;; k" := (bind m (fun _ => k))
  (at level 61, right associativity).

Definition modify (f : State -> State) : Handler unit :=
  fun s => (tt, f s).

Definition gets {A : Type} (f : State -> A) : Handler A :=
  fun s => (f s, s).

Definition exec {A : Type} (m : Handler A) (s : State) : State := snd (m s).

(** [for (let i = 0; i < n; i++) body(i)], counted from [i]. *)
Fixpoint forFrom (i n : nat) (body : nat -> Handler unit) : Handler unit :=
  match n with
  | O => ret tt
  | S n' => body i ;;; forFrom (S i) n' body
  end.

(** [setFloatingImages(updater)]. *)
Definition setFloatingImages
  (f : list FloatingImage -> list FloatingImage) : Handler unit :=
  modify (updFloatingImages f).

Definition setMousePosition (m : Q * Q) : Handler unit :=
  modify (putMousePosition m).

(** [setTimeout(cb, delay)] called at time [now]: a fresh handle. *)
Definition setTimeout (cb : Callback) (now delay : Z) : Handler nat :=
  fun s =>
    let h := nextHandle s in
    (h, mkState (floatingImages s) (mousePosition s) (containerRef s)
          (imageCounter s) (cleanupTimer s)
          (timers s ++ [mkTimer h (now + delay) cb]) (S h) (rngPos s)).

Definition dropTimer (h : nat) (l : list Timer) : list Timer :=
  filter (fun t => negb (Nat.eqb (handle t) h)) l.

(** [clearTimeout(h)]: nothing happens when [h] is no longer pending. *)
Definition clearTimeout (h : nat) : Handler unit :=
  modify (fun s => putTimers (dropTimer h (timers s)) s).

Section WithRandom.

(** The values [Math.random()] returns, in call order. *)
Variable rnd : nat -> Q.

(** Every value is a double in [[0, 1)]. *)
Definition InRange : Prop :=
  forall n, IsDouble (rnd n) /\ (0 <= rnd n /\ rnd n < 1)%Q.

(** [Math.random()]. *)
Definition random : Handler Q :=
  fun s =>
    (rnd (rngPos s),
     mkState (floatingImages s) (mousePosition s) (containerRef s)
       (imageCounter s) (cleanupTimer s) (timers s) (nextHandle s)
       (S (rngPos s))).

(** [Math.floor(r * length)]. *)
Definition randomIndex (r : Q) (len : nat) : Z :=
  Qfloor (mul64 r (inject_Z (Z.of_nat len))).

(** [arr[i]] for a number [i] that is an integer. *)
Definition index {A : Type} (arr : list A) (i : Z) : option A :=
  if i <? 0 then None else nth_error arr (Z.to_nat i).

(** [memoizedImages[Math.floor(Math.random() * memoizedImages.length)]]. *)
Definition randomImage (memoizedImages : list string)
  : Handler (option string) :=
  r <- random ;;
  ret (index memoizedImages (randomIndex r (List.length memoizedImages))).

Definition getRandomImageProps (x0 y0 : Q) : Handler RandomImageProps :=
  r1 <- random ;;
  r2 <- random ;;
  r3 <- random ;;
  r4 <- random ;;
  r5 <- random ;;
  ret {| rp_x := add64 x0 (mul64 (sub64 r1 (1 # 2)) (100 # 1));
         rp_y := add64 y0 (mul64 (sub64 r2 (1 # 2)) (100 # 1));
         rp_rotation := mul64 (sub64 r3 (1 # 2)) (12 # 1);
         rp_scale := add64 (literal (9 # 10)) (mul64 r4 (literal (3 # 10)));
         rp_zIndex := Qfloor (mul64 r5 (15 # 1)) |}.

Definition withProps (i : string) (s : option string) (p : RandomImageProps)
  : FloatingImage :=
  {| id := i; src := s;
     x := rp_x p; y := rp_y p; rotation := rp_rotation p;
     scale := rp_scale p; zIndex := rp_zIndex p |}.

(** [`img-${now}-${i}`] and [`touch-${Date.now()}`]. *)
Definition mouseId (now : Z) (i : nat) : string :=
  ("img-" ++ stringOfZ now ++ "-" ++ stringOfZ (Z.of_nat i))%string.

Definition touchId (now : Z) : string :=
  ("touch-" ++ stringOfZ now)%string.

(** The two constants at the head of the loop body of [onMouseMove] and of
    [onTouch]: [randomImage], then [newImage] with the given [id]. *)
Definition newImage (memoizedImages : list string) (ident : string)
  (x0 y0 : Q) : Handler FloatingImage :=
  randomImage_ <- randomImage memoizedImages ;;
  props <- getRandomImageProps x0 y0 ;;
  ret (withProps ident randomImage_ props).

(** One turn of the loop in [onMouseMove]. *)
Definition spawnOne (memoizedImages : list string) (now : Z) (x0 y0 : Q)
  (i : nat) : Handler unit :=
  img <- newImage memoizedImages (mouseId now i) x0 y0 ;;
  setFloatingImages (appendAndTrim img).

Definition onMouseMove (memoizedImages : list string) (now : Z) (e : Pointer)
  : Handler unit :=
  current <- gets containerRef ;;
  if negb current then ret tt else
  let x0 := localX e in
  let y0 := localY e in
  setMousePosition (x0, y0) ;;;
  last <- gets imageCounter ;;
  if now - last <? 80 then ret tt else
  modify (putImageCounter now) ;;;
  r <- random ;;
  let numImages := if Qgtb r (literal (8 # 10)) then 2%nat else 1%nat in
  forFrom 0 numImages (spawnOne memoizedImages now x0 y0) ;;;
  pending <- gets cleanupTimer ;;
  match pending with
  | Some h => clearTimeout h
  | None => ret tt
  end ;;;
  h <- setTimeout TrimToSix now 500 ;;
  modify (putCleanupTimer (Some h)).

Definition onMouseLeave (now : Z) : Handler unit :=
  _h <- setTimeout ClearAll now 200 ;;
  ret tt.

Definition onTouch (memoizedImages : list string) (now : Z) (e : Pointer)
  : Handler unit :=
  current <- gets containerRef ;;
  if negb current then ret tt else
  let x0 := localX e in
  let y0 := localY e in
  img <- newImage memoizedImages (touchId now) x0 y0 ;;
  setFloatingImages (keepThreeAnd img).

End WithRandom.

(** The cleanup returned by the mount effect, run when the component
    unmounts: [if (cleanupTimer.current) clearTimeout(cleanupTimer.current)]. *)
Definition onUnmount : Handler unit :=
  pending <- gets cleanupTimer ;;
  match pending with
  | Some h => clearTimeout h
  | None => ret tt
  end.

(** *** What the component renders *)

Inductive Listener : Type :=
| OnMouseMove
| OnMouseLeave
| OnTouchMove.

Definition listenerEqb (a b : Listener) : bool :=
  match a, b with
  | OnMouseMove, OnMouseMove => true
  | OnMouseLeave, OnMouseLeave => true
  | OnTouchMove, OnTouchMove => true
  | _, _ => false
  end.

(** One [<div key={img.id} ...><Image .../></div>] of the trail. *)
Record FloatingDiv : Type := mkFloatingDiv {
  key : string;
  style_left : Q;
  style_top : Q;
  rotateDeg : Q;
  scaleBy : Q;
  style_zIndex : Z;
  opacity : Q;
  img_src : option string;
  img_alt : string;
  img_loading : string;
  img_priority : bool
}.

(** The container [<div ref={containerRef} ...>] and what it holds. *)
Record Container : Type := mkContainer {
  listeners : list Listener;
  ariaLabel : string;
  title : string;
  floating : list FloatingDiv;
  cursor_left : Q;
  cursor_top : Q
}.

Definition renderFloating (alt : string) (img : FloatingImage) (index : nat)
  : FloatingDiv :=
  {| key := id img;
     style_left := sub64 (x img) (80 # 1);
     style_top := sub64 (y img) (60 # 1);
     rotateDeg := rotation img;
     scaleBy := scale img;
     style_zIndex := zIndex img + Z.of_nat index;
     opacity :=
       Qmax (literal (15 # 100))
         (sub64 1 (mul64 (inject_Z (Z.of_nat index)) (literal (8 # 100))));
     img_src := src img;
     img_alt := alt;
     img_loading := if (index <? 2)%nat then "eager" else "lazy";
     img_priority := (index <? 2)%nat |}.

(** The component body after the hooks: [null] for an empty [images]. *)
Definition render (props : BannerProps) (s : State) : option Container :=
  let alt := withDefault "banner" (altText props) in
  if (List.length (images props) =? 0)%nat then None
  else
    Some
      {| listeners := [OnMouseMove; OnMouseLeave; OnTouchMove];
         ariaLabel := alt;
         title := "Noggles Board";
         floating := mapi (renderFloating alt) (floatingImages s);
         cursor_left := sub64 (fst (mousePosition s)) (2 # 1);
         cursor_top := sub64 (snd (mousePosition s)) (2 # 1) |}.

(** *** The host: running timers that are due *)

Definition runCallback (cb : Callback) : State -> State :=
  match cb with
  | TrimToSix => updFloatingImages trimToSix
  | ClearAll => updFloatingImages (fun _ => [])
  end.

(** Timers run in deadline order; equal deadlines in creation order. *)
Definition earlier (a b : Timer) : bool :=
  (due a <? due b) || ((due a =? due b) && (handle a <=? handle b)%nat).

Fixpoint nextDue (now : Z) (l : list Timer) : option Timer :=
  match l with
  | [] => None
  | t :: r =>
      if due t <=? now then
        match nextDue now r with
        | Some u => Some (if earlier t u then t else u)
        | None => Some t
        end
      else nextDue now r
  end.

Definition fire (t : Timer) (s : State) : State :=
  runCallback (callback t) (putTimers (dropTimer (handle t) (timers s)) s).

Fixpoint advanceFuel (fuel : nat) (now : Z) (s : State) : State :=
  match fuel with
  | O => s
  | S fuel' =>
      match nextDue now (timers s) with
      | Some t => advanceFuel fuel' now (fire t s)
      | None => s
      end
  end.

(** Run every timer whose deadline is at most [now].  A callback starts no
    timer, so one round per pending timer is enough. *)
Definition advance (now : Z) (s : State) : State :=
  advanceFuel (List.length (timers s)) now s.

(** *** Events and the event loop *)

Inductive Event : Type :=
| MouseMove (now : Z) (e : Pointer)
| MouseLeave (now : Z)
| TouchMove (now : Z) (e : Pointer)
| Idle (now : Z).   (* time passes, nothing is delivered *)

Definition timeOf (ev : Event) : Z :=
  match ev with
  | MouseMove now _ => now
  | MouseLeave now => now
  | TouchMove now _ => now
  | Idle now => now
  end.

Definition listenerOf (ev : Event) : option Listener :=
  match ev with
  | MouseMove _ _ => Some OnMouseMove
  | MouseLeave _ => Some OnMouseLeave
  | TouchMove _ _ => Some OnTouchMove
  | Idle _ => None
  end.

(** A listener exists only on a rendered container. *)
Definition attached (props : BannerProps) (s : State) (l : Listener) : bool :=
  match render props s with
  | Some c => existsb (listenerEqb l) (listeners c)
  | None => false
  end.

Definition initialState : State :=
  {| floatingImages := [];
     mousePosition := (0%Q, 0%Q);
     containerRef := false;
     imageCounter := 0;
     cleanupTimer := None;
     timers := [];
     nextHandle := 1;
     rngPos := 0 |}.

(** First render and commit: the ref is set when the container exists. *)
Definition mount (props : BannerProps) : State :=
  mkState (floatingImages initialState) (mousePosition initialState)
    (match render props initialState with Some _ => true | None => false end)
    (imageCounter initialState) (cleanupTimer initialState)
    (timers initialState) (nextHandle initialState) (rngPos initialState).

Section EventLoop.

Variable rnd : nat -> Q.
Variable props : BannerProps.

Definition handlerOf (ev : Event) : Handler unit :=
  match ev with
  | MouseMove now e => onMouseMove rnd (images props) now e
  | MouseLeave now => onMouseLeave now
  | TouchMove now e => onTouch rnd (images props) now e
  | Idle _ => ret tt
  end.

(** The handler of the event, when its listener is attached. *)
Definition handle_ (ev : Event) (s : State) : State :=
  match listenerOf ev with
  | Some l => if attached props s l then exec (handlerOf ev) s else s
  | None => s
  end.

(** Due timers first, then the event. *)
Definition deliver (s : State) (ev : Event) : State :=
  handle_ ev (advance (timeOf ev) s).

Definition run (s : State) (evs : list Event) : State :=
  fold_left deliver evs s.

End EventLoop.

(** *** Vocabulary of the properties *)

(** The throttle gate of [onMouseMove] lets the event at [now] through. *)
Definition accepts (s : State) (now : Z) : bool :=
  containerRef s && negb (now - imageCounter s <? 80).

(** The placement of an image spawned at local coordinates [(px, py)],
    with the bounds on [x] and [y] taken exactly. *)
Definition Jittered (px py : Q) (img : FloatingImage) : Prop :=
  (px - 50 <= x img /\ x img <= px + 50)%Q /\
  (py - 50 <= y img /\ y img <= py + 50)%Q /\
  (- (6) <= rotation img /\ rotation img <= 6)%Q /\
  ((9 # 10) <= scale img /\ scale img <= (12 # 10))%Q /\
  (0 <= zIndex img /\ zIndex img < 15).

(** The same placement with the bounds on [x] and [y] as the code can
    compute them: the doubles [px - 50] and [px + 50]. *)
Definition JitteredRounded (px py : Q) (img : FloatingImage) : Prop :=
  (sub64 px (50 # 1) <= x img /\ x img <= add64 px (50 # 1))%Q /\
  (sub64 py (50 # 1) <= y img /\ y img <= add64 py (50 # 1))%Q /\
  (- (6) <= rotation img /\ rotation img <= 6)%Q /\
  ((9 # 10) <= scale img /\ scale img <= (12 # 10))%Q /\
  (0 <= zIndex img /\ zIndex img < 15).

(** The image shows one of the configured photos. *)
Definition FromImages (imgs : list string) (img : FloatingImage) : Prop :=
  exists u, src img = Some u /\ In u imgs.

Definition isTouchMove (ev : Event) : bool :=
  match ev with
  | TouchMove _ _ => true
  | _ => false
  end.

Definition isIdle (ev : Event) : bool :=
  match ev with
  | Idle _ => true
  | _ => false
  end.

(** The timer table after the [clearTimeout] of an accepted burst. *)
Definition afterClear (s : State) : list Timer :=
  match cleanupTimer s with
  | Some h => dropTimer h (timers s)
  | None => timers s
  end.

(** Handles are handed out once: pending timers have distinct handles
    below [nextHandle], and [cleanupTimer.current] names at most a
    retirement timer. *)
Definition TimersOk (s : State) : Prop :=
  NoDup (map handle (timers s)) /\
  (forall t, In t (timers s) -> (handle t < nextHandle s)%nat) /\
  (forall c, cleanupTimer s = Some c -> (c < nextHandle s)%nat) /\
  (forall t,
      In t (timers s) -> cleanupTimer s = Some (handle t) ->
      callback t = TrimToSix).

(** The retirement timer of the last accepted burst is still pending. *)
Definition RetirementPending (s : State) : Prop :=
  exists t,
    In t (timers s) /\ callback t = TrimToSix /\
    due t = imageCounter s + 500.

(** The ids in the list are distinct ids of pointer bursts no later than
    [ic]. *)
Definition Stamped (ic : Z) (ids : list string) : Prop :=
  NoDup ids /\
  forall a, In a ids ->
            exists t i, a = mouseId t i /\ t <= ic /\ (i < 2)%nat.

(** Every pending retirement is the one [cleanupTimer.current] names, and
    its deadline is 500ms after the last accepted burst. *)
Definition RetirementSlot (s : State) : Prop :=
  forall t,
    In t (timers s) -> callback t = TrimToSix ->
    cleanupTimer s = Some (handle t) /\ due t = imageCounter s + 500.

Definition isMouseMove (ev : Event) : bool :=
  match ev with
  | MouseMove _ _ => true
  | _ => false
  end.

(** The part of the placement that does not depend on the pointer. *)
Definition Styled (img : FloatingImage) : Prop :=
  (- (6) <= rotation img /\ rotation img <= 6)%Q /\
  ((9 # 10) <= scale img /\ scale img <= (12 # 10))%Q /\
  (0 <= zIndex img /\ zIndex img < 15).

(** The keys React sees for the trail. *)
Definition liveIds (s : State) : list string :=
  map id (floatingImages s).

End Banner.

(** ** Sample inputs used to instantiate the theorems *)

Module Sample.

Import Banner.

Definition photos : list string := ["a.jpg"; "b.jpg"; "c.jpg"].

Definition props : BannerProps := mkBannerProps photos None None.

Definition propsRotating : BannerProps :=
  mkBannerProps photos None (Some (3000 # 1)).

Definition noPhotos : BannerProps := mkBannerProps [] None None.

(** A stream of draws in [[0, 1)]: 0, 0.37, 0.74, 0.11, ... *)
Definition draws (n : nat) : Q := Z.of_nat ((n * 37) mod 100) # 100.

Definition at_100_200 : Pointer :=
  mkPointer (110 # 1) (220 # 1) (10 # 1) (20 # 1).

(** A stream of doubles in [[0, 1)]: 0, 5/8, 2/8, 7/8, ... *)
Definition doubles (n : nat) : Q := Z.of_nat ((n * 5) mod 8) # 8.

(** [Math.random()] returning 0 every time. *)
Definition zeros (n : nat) : Q := 0 # 1.

(** A pointer at local coordinates (0.3, 0). *)
Definition at_0_3 : Pointer :=
  mkPointer (literal (3 # 10)) (0 # 1) (0 # 1) (0 # 1).

End Sample.

(** * Properties *)

Import Banner.

Local Open Scope Z_scope.

(** ** Rounding to binary64 *)

Section Binary64.

Local Open Scope Q_scope.

Lemma pow2_pos (z : Z) : 0 < pow2 z.
Proof. apply Qpower_0_lt. reflexivity. Qed.

Lemma pow2_le (a b : Z) : (a <= b)%Z -> pow2 a <= pow2 b.
Proof. intros H. apply Qpower_le_compat_l; [exact H | discriminate]. Qed.

Lemma pow2_lt_inv (a b : Z) : pow2 a < pow2 b -> (a < b)%Z.
Proof.
  intros H. apply (Qpower_lt_compat_l_inv (2 # 1)); [exact H | reflexivity].
Qed.

Lemma pow2_add (a b : Z) : pow2 (a + b) == pow2 a * pow2 b.
Proof. apply Qpower_plus. discriminate. Qed.

Lemma pow2_Z (z : Z) : (0 <= z)%Z -> pow2 z == inject_Z (2 ^ z).
Proof. intros H. unfold pow2. now rewrite Zpower_Qpower. Qed.

Lemma pow2_sub (a b : Z) : pow2 (a - b) == pow2 a / pow2 b.
Proof. apply Qpower_minus. discriminate. Qed.

Lemma ilog2_spec (q : Q) :
  0 < q -> pow2 (ilog2 q) <= q /\ q < pow2 (ilog2 q + 1).
Proof.
  intros Hq. destruct q as [n d]. unfold ilog2. cbn [Qnum Qden].
  assert (Hn : (0 < n)%Z).
  { unfold Qlt in Hq. cbn in Hq. lia. }
  set (a := Z.log2 n). set (b := Z.log2 (Z.pos d)).
  assert (Ha : (0 <= a)%Z) by apply Z.log2_nonneg.
  assert (Hb : (0 <= b)%Z) by apply Z.log2_nonneg.
  destruct (Z.log2_spec n Hn) as [Ha1 Ha2]. fold a in Ha1, Ha2.
  destruct (Z.log2_spec (Z.pos d) eq_refl) as [Hb1 Hb2]. fold b in Hb1, Hb2.
  assert (Hq' : n # d == inject_Z n / inject_Z (Z.pos d)) by apply Qmake_Qdiv.
  assert (HD : 0 < inject_Z (Z.pos d)) by reflexivity.
  assert (HPa : 0 < pow2 a) by apply pow2_pos.
  assert (HPb : 0 < pow2 b) by apply pow2_pos.
  assert (Ea : pow2 a == inject_Z (2 ^ a)) by now apply pow2_Z.
  assert (Eb : pow2 b == inject_Z (2 ^ b)) by now apply pow2_Z.
  assert (Ea1 : pow2 (a + 1) == 2 * pow2 a).
  { rewrite pow2_add. change (pow2 1) with (2 # 1). ring. }
  assert (Eb1 : pow2 (b + 1) == 2 * pow2 b).
  { rewrite pow2_add. change (pow2 1) with (2 # 1). ring. }
  assert (La : pow2 a <= inject_Z n) by (rewrite Ea; now rewrite <- Zle_Qle).
  assert (Ua : inject_Z n < 2 * pow2 a).
  { rewrite <- Ea1, pow2_Z by lia. rewrite <- Zlt_Qlt. exact Ha2. }
  assert (Lb : pow2 b <= inject_Z (Z.pos d))
    by (rewrite Eb; now rewrite <- Zle_Qle).
  assert (Ub : inject_Z (Z.pos d) < 2 * pow2 b).
  { rewrite <- Eb1, pow2_Z by lia. rewrite <- Zlt_Qlt. exact Hb2. }
  assert (Ediv : forall k, pow2 (a - b + k) == pow2 k * pow2 a / pow2 b).
  { intros k. rewrite pow2_add, pow2_sub. field.
    intros E. rewrite E in HPb. discriminate. }
  destruct (Qle_bool (pow2 (a - b)) (n # d)) eqn:E.
  - apply Qle_bool_iff in E. split; [exact E |].
    rewrite Hq', Ediv. change (pow2 1) with (2 # 1).
    apply Qlt_shift_div_r; [exact HD |].
    set (N := inject_Z n) in *. set (D := inject_Z (Z.pos d)) in *.
    set (A := pow2 a) in *. set (B := pow2 b) in *.
    assert (Hx : (2 # 1) * A / B * D == (2 # 1) * A * (D / B)).
    { field. intros E'. rewrite E' in HPb. discriminate. }
    rewrite Hx.
    assert (1 <= D / B).
    { apply Qle_shift_div_l; [exact HPb | lra]. }
    nra.
  - assert (E' : n # d < pow2 (a - b)).
    { apply Qnot_le_lt. intros H. apply Qle_bool_iff in H. congruence. }
    split.
    + replace (a - b - 1)%Z with (a - b + -1)%Z by lia.
      rewrite Hq', Ediv. change (pow2 (-1)) with (1 # 2).
      apply Qle_shift_div_l; [exact HD |].
      set (N := inject_Z n) in *. set (D := inject_Z (Z.pos d)) in *.
      set (A := pow2 a) in *. set (B := pow2 b) in *.
      assert (Hx : (1 # 2) * A / B * D == (1 # 2) * A * (D / B)).
      { field. intros E''. rewrite E'' in HPb. discriminate. }
      rewrite Hx.
      assert (D / B <= 2).
      { apply Qle_shift_div_r; [exact HPb | lra]. }
      nra.
    + replace (a - b - 1 + 1)%Z with (a - b)%Z by lia. exact E'.
Qed.

Lemma ilog2_mono (x y : Q) : 0 < x -> x <= y -> (ilog2 x <= ilog2 y)%Z.
Proof.
  intros Hx Hxy.
  destruct (ilog2_spec x Hx) as [Lx _].
  destruct (ilog2_spec y) as [_ Uy]; [lra |].
  assert (H : pow2 (ilog2 x) < pow2 (ilog2 y + 1)) by lra.
  apply pow2_lt_inv in H. lia.
Qed.

Lemma ilog2_unique (q : Q) (e : Z) :
  pow2 e <= q -> q < pow2 (e + 1) -> ilog2 q = e.
Proof.
  intros L U.
  assert (Hq : 0 < q) by (pose proof (pow2_pos e); lra).
  destruct (ilog2_spec q Hq) as [L' U'].
  assert (H1 : pow2 e < pow2 (ilog2 q + 1)) by lra.
  assert (H2 : pow2 (ilog2 q) < pow2 (e + 1)) by lra.
  apply pow2_lt_inv in H1. apply pow2_lt_inv in H2. lia.
Qed.

Lemma roundHalfEven_comp (x y : Q) :
  x == y -> roundHalfEven x = roundHalfEven y.
Proof.
  intros E. unfold roundHalfEven. rewrite (Qfloor_comp x y E).
  assert (E' : x - inject_Z (Qfloor y) == y - inject_Z (Qfloor y))
    by now rewrite E.
  now rewrite (Qcompare_comp _ _ E' _ _ (Qeq_refl (1 # 2))).
Qed.

Lemma roundHalfEven_cases (x : Q) :
  roundHalfEven x = Qfloor x \/ roundHalfEven x = (Qfloor x + 1)%Z.
Proof.
  unfold roundHalfEven.
  destruct (Qcompare (x - inject_Z (Qfloor x)) (1 # 2)); auto.
  destruct (Z.even (Qfloor x)); auto.
Qed.

Lemma roundHalfEven_near (x : Q) :
  inject_Z (roundHalfEven x) - (1 # 2) <= x /\
  x <= inject_Z (roundHalfEven x) + (1 # 2).
Proof.
  pose proof (Qfloor_le x) as Hl. pose proof (Qlt_floor x) as Hu.
  rewrite inject_Z_plus in Hu. change (inject_Z 1) with 1 in Hu.
  unfold roundHalfEven.
  destruct (Qcompare_spec (x - inject_Z (Qfloor x)) (1 # 2)) as [E | E | E].
  - destruct (Z.even (Qfloor x)); [| rewrite inject_Z_plus];
      change (inject_Z 1) with 1; lra.
  - lra.
  - rewrite inject_Z_plus. change (inject_Z 1) with 1. lra.
Qed.

Lemma roundHalfEven_mono (x y : Q) :
  x <= y -> (roundHalfEven x <= roundHalfEven y)%Z.
Proof.
  intros Hxy. pose proof (Qfloor_resp_le x y Hxy) as Hf.
  destruct (Z.eq_dec (Qfloor x) (Qfloor y)) as [Ef | Nf].
  - unfold roundHalfEven. rewrite Ef.
    assert (Hr : x - inject_Z (Qfloor y) <= y - inject_Z (Qfloor y)) by lra.
    destruct (Qcompare_spec (x - inject_Z (Qfloor y)) (1 # 2)) as [E | E | E];
      destruct (Qcompare_spec (y - inject_Z (Qfloor y)) (1 # 2))
        as [E' | E' | E'];
      try lra; try lia; destruct (Z.even (Qfloor y)); lia.
  - destruct (roundHalfEven_cases x) as [-> | ->];
      destruct (roundHalfEven_cases y) as [-> | ->]; lia.
Qed.

Lemma roundHalfEven_Z (z : Z) : roundHalfEven (inject_Z z) = z.
Proof.
  unfold roundHalfEven. rewrite Qfloor_Z.
  destruct (Qcompare_spec (inject_Z z - inject_Z z) (1 # 2)) as [E | E | E];
    try lra; reflexivity.
Qed.

Lemma ulp_pos (q : Q) : 0 < ulp q.
Proof. apply pow2_pos. Qed.

Lemma ulp_mono (x y : Q) : 0 < x -> x <= y -> ulp x <= ulp y.
Proof.
  intros Hx Hxy. apply pow2_le. pose proof (ilog2_mono x y Hx Hxy). lia.
Qed.

Lemma roundPositive_nonneg (x : Q) : 0 < x -> 0 <= roundPositive x.
Proof.
  intros Hx. unfold roundPositive. pose proof (ulp_pos x) as Hg.
  assert (H : (0 <= roundHalfEven (x / ulp x))%Z).
  { rewrite <- (roundHalfEven_Z 0). apply roundHalfEven_mono.
    change (inject_Z 0) with 0. apply Qle_shift_div_l; [exact Hg | lra]. }
  rewrite Zle_Qle in H. change (inject_Z 0) with 0 in H. nra.
Qed.

(** A power of two at or above the binade of [x] bounds its rounding. *)
Lemma roundPositive_below (x : Q) (k : Z) :
  0 < x -> x <= pow2 k -> (Z.max (ilog2 x) (-1022) - 52 <= k)%Z ->
  roundPositive x <= pow2 k.
Proof.
  intros Hx Hk HE. unfold roundPositive, ulp.
  set (g := (Z.max (ilog2 x) (-1022) - 52)%Z) in *.
  pose proof (pow2_pos g) as Hg.
  assert (Ek : pow2 k == inject_Z (2 ^ (k - g)) * pow2 g).
  { rewrite <- pow2_Z by lia. rewrite <- pow2_add.
    now replace (k - g + g)%Z with k by lia. }
  assert (H : (roundHalfEven (x / pow2 g) <= 2 ^ (k - g))%Z).
  { rewrite <- (roundHalfEven_Z (2 ^ (k - g))). apply roundHalfEven_mono.
    apply Qle_shift_div_r; [exact Hg |]. now rewrite <- Ek. }
  rewrite Zle_Qle in H. rewrite Ek. nra.
Qed.

Lemma roundPositive_above (x : Q) (k : Z) :
  0 < x -> pow2 k <= x -> (Z.max (ilog2 x) (-1022) - 52 <= k)%Z ->
  pow2 k <= roundPositive x.
Proof.
  intros Hx Hk HE. unfold roundPositive, ulp.
  set (g := (Z.max (ilog2 x) (-1022) - 52)%Z) in *.
  pose proof (pow2_pos g) as Hg.
  assert (Ek : pow2 k == inject_Z (2 ^ (k - g)) * pow2 g).
  { rewrite <- pow2_Z by lia. rewrite <- pow2_add.
    now replace (k - g + g)%Z with k by lia. }
  assert (H : (2 ^ (k - g) <= roundHalfEven (x / pow2 g))%Z).
  { rewrite <- (roundHalfEven_Z (2 ^ (k - g))) at 1.
    apply roundHalfEven_mono.
    apply Qle_shift_div_l; [exact Hg |]. now rewrite <- Ek. }
  rewrite Zle_Qle in H. rewrite Ek. nra.
Qed.

Lemma roundPositive_mono (x y : Q) :
  0 < x -> x <= y -> roundPositive x <= roundPositive y.
Proof.
  intros Hx Hxy. assert (Hy : 0 < y) by lra.
  pose proof (ilog2_mono x y Hx Hxy) as He.
  destruct (ilog2_spec x Hx) as [Lx Ux].
  destruct (ilog2_spec y Hy) as [Ly Uy].
  destruct (Z.eq_dec (Z.max (ilog2 x) (-1022)) (Z.max (ilog2 y) (-1022)))
    as [E | N].
  - unfold roundPositive, ulp. rewrite E.
    set (g := pow2 (Z.max (ilog2 y) (-1022) - 52)).
    assert (Hg : 0 < g) by apply pow2_pos.
    assert (H : (roundHalfEven (x / g) <= roundHalfEven (y / g))%Z).
    { apply roundHalfEven_mono. apply Qle_shift_div_l; [exact Hg |].
      assert (Hd : x / g * g == x).
      { field. intros E'. rewrite E' in Hg. discriminate. }
      rewrite Hd. exact Hxy. }
    rewrite Zle_Qle in H. nra.
  - apply Qle_trans with (pow2 (ilog2 y)).
    + apply roundPositive_below; [exact Hx | | lia].
      apply Qle_trans with (pow2 (ilog2 x + 1)); [lra |].
      apply pow2_le. lia.
    + apply roundPositive_above; [exact Hy | exact Ly | lia].
Qed.

Lemma round64_mono (x y : Q) : x <= y -> round64 x <= round64 y.
Proof.
  intros Hxy. unfold round64. rewrite !Qred_correct.
  destruct (Qcompare_spec x 0) as [Ex | Ex | Ex];
    destruct (Qcompare_spec y 0) as [Ey | Ey | Ey]; try lra.
  - apply roundPositive_nonneg. exact Ey.
  - assert (0 <= roundPositive (- x)) by (apply roundPositive_nonneg; lra).
    lra.
  - assert (roundPositive (- y) <= roundPositive (- x))
      by (apply roundPositive_mono; lra).
    lra.
  - assert (0 <= roundPositive (- x)) by (apply roundPositive_nonneg; lra).
    assert (0 <= roundPositive y) by (apply roundPositive_nonneg; lra).
    lra.
  - now apply roundPositive_mono.
Qed.

(** The standard model of rounding, for a normal positive number. *)
Lemma roundPositive_error (x : Q) :
  pow2 (-1022) <= x ->
  roundPositive x <= x * (1 + pow2 (-53)).
Proof.
  intros Hn. assert (Hx : 0 < x) by (pose proof (pow2_pos (-1022)); lra).
  destruct (ilog2_spec x Hx) as [Lx Ux].
  assert (He : (-1022 <= ilog2 x)%Z).
  { assert (H : pow2 (-1022) < pow2 (ilog2 x + 1)) by lra.
    apply pow2_lt_inv in H. lia. }
  unfold roundPositive, ulp. rewrite Z.max_l by lia.
  set (e := ilog2 x) in *. set (g := pow2 (e - 52)).
  assert (Hg : 0 < g) by apply pow2_pos.
  assert (Eg : pow2 e == g * pow2 52).
  { unfold g. rewrite <- pow2_add.
    now replace (e - 52 + 52)%Z with e by lia. }
  destruct (roundHalfEven_near (x / g)) as [Hl _].
  assert (Hd : x / g * g == x).
  { field. intros E'. rewrite E' in Hg. discriminate. }
  change (pow2 (-53)) with (1 # 9007199254740992).
  change (pow2 52) with (4503599627370496 # 1) in Eg.
  set (m := inject_Z (roundHalfEven (x / g))) in *.
  set (t := x / g) in *.
  nra.
Qed.

Lemma round64_0 : round64 0 == 0.
Proof. reflexivity. Qed.

Lemma round64_nonneg (x : Q) : 0 <= x -> 0 <= round64 x.
Proof.
  intros H. rewrite <- round64_0 at 1. now apply round64_mono.
Qed.

Lemma round64_positive (x : Q) : 0 < x -> round64 x == roundPositive x.
Proof.
  intros H. unfold round64. rewrite Qred_correct.
  destruct (Qcompare_spec x 0) as [E | E | E]; lra.
Qed.

Lemma double_below_one (q : Q) : IsDouble q -> q < 1 -> q <= belowOne.
Proof.
  unfold IsDouble, belowOne. intros Hd Hq.
  destruct (Qlt_le_dec q (1 # 2)) as [Hs | Hs]; [lra |].
  assert (He : ilog2 q = (-1)%Z).
  { apply ilog2_unique.
    - change (pow2 (-1)) with (1 # 2). exact Hs.
    - change (pow2 (-1 + 1)) with 1. exact Hq. }
  rewrite round64_positive in Hd by lra.
  unfold roundPositive, ulp in Hd. rewrite He in Hd.
  change (pow2 (Z.max (-1) (-1022) - 52)) with (1 # 9007199254740992) in Hd.
  set (m := roundHalfEven (q / (1 # 9007199254740992))) in *.
  assert (Hq' : inject_Z m < 9007199254740992 # 1) by lra.
  assert (Hm : (m < 9007199254740992)%Z) by (rewrite Zlt_Qlt; exact Hq').
  assert (Hm' : (m <= 9007199254740991)%Z) by lia.
  rewrite Zle_Qle in Hm'.
  change (inject_Z 9007199254740991) with (9007199254740991 # 1) in Hm'.
  lra.
Qed.

(** [Math.floor(r * n)] for a double [r] below 1 and a length [n >= 1]:
    the rounded product stays below [n]. *)
Lemma round64_scaled_below (r : Q) (n : Z) :
  0 <= r -> r <= belowOne -> (1 <= n)%Z ->
  0 <= round64 (r * inject_Z n) /\ round64 (r * inject_Z n) < inject_Z n.
Proof.
  intros H0 H1 Hn. unfold belowOne in H1.
  assert (HL : 1 <= inject_Z n).
  { change 1 with (inject_Z 1). now rewrite <- Zle_Qle. }
  split; [apply round64_nonneg; nra |].
  set (L := inject_Z n) in *.
  apply Qle_lt_trans
    with (round64 ((9007199254740991 # 9007199254740992) * L)).
  - apply round64_mono. nra.
  - rewrite round64_positive by nra.
    eapply Qle_lt_trans.
    + apply roundPositive_error.
      apply Qle_trans with (1 # 2); [discriminate | nra].
    + change (pow2 (-53)) with (1 # 9007199254740992). nra.
Qed.

End Binary64.

(** ** Lists *)

Lemma sliceLast_length {A : Type} (n : nat) (l : list A) :
  List.length (sliceLast n l) = Nat.min n (List.length l).
Proof.
  unfold sliceLast. rewrite length_skipn. lia.
Qed.

Lemma sliceLast_le {A : Type} (n : nat) (l : list A) :
  (List.length (sliceLast n l) <= n)%nat.
Proof.
  rewrite sliceLast_length. lia.
Qed.

Lemma sliceLast_shrinks {A : Type} (n : nat) (l : list A) :
  (List.length (sliceLast n l) <= List.length l)%nat.
Proof.
  rewrite sliceLast_length. lia.
Qed.

Lemma sliceLast_In {A : Type} (n : nat) (l : list A) (a : A) :
  In a (sliceLast n l) -> In a l.
Proof.
  unfold sliceLast. intros H.
  rewrite <- (firstn_skipn (List.length l - n) l).
  apply in_or_app. now right.
Qed.

Lemma sliceLast_Forall {A : Type} (P : A -> Prop) (n : nat) (l : list A) :
  Forall P l -> Forall P (sliceLast n l).
Proof.
  rewrite !Forall_forall. intros H a Ha. apply H.
  now apply sliceLast_In in Ha.
Qed.

Lemma sliceLast_snoc {A : Type} (n : nat) (l : list A) (a : A) :
  sliceLast (S n) (l ++ [a]) = sliceLast n l ++ [a].
Proof.
  unfold sliceLast. rewrite length_app. cbn [List.length].
  replace (List.length l + 1 - S n)%nat with (List.length l - n)%nat by lia.
  rewrite skipn_app.
  replace (List.length l - n - List.length l)%nat with 0%nat by lia.
  reflexivity.
Qed.

(** ** Handlers, one at a time *)

Ltac run_handler :=
  repeat
    (progress
       (cbv [exec onMouseMove onMouseLeave onTouch spawnOne forFrom
             setFloatingImages setMousePosition setTimeout clearTimeout
             random modify gets bind ret
             updFloatingImages putMousePosition putImageCounter
             putCleanupTimer putTimers
             floatingImages mousePosition containerRef imageCounter
             cleanupTimer timers nextHandle rngPos negb];
        cbn [fst snd])).

Ltac state_fields :=
  cbn [putMousePosition putImageCounter putCleanupTimer putTimers
       updFloatingImages floatingImages mousePosition containerRef
       imageCounter cleanupTimer timers nextHandle rngPos].

Ltac run_newImage :=
  cbv [newImage randomImage getRandomImageProps random gets bind ret
       floatingImages mousePosition containerRef imageCounter cleanupTimer
       timers nextHandle rngPos fst snd].

Section Handlers.

Variable rnd : nat -> Q.
Variable imgs : list string.

(** [newImage] only moves the cursor of the random stream. *)
Lemma newImage_state (ident : string) (px py : Q) (s : State) :
  snd (newImage rnd imgs ident px py s) =
  mkState (floatingImages s) (mousePosition s) (containerRef s)
    (imageCounter s) (cleanupTimer s) (timers s) (nextHandle s)
    (6 + rngPos s).
Proof.
  destruct s. run_newImage. reflexivity.
Qed.

Lemma newImage_id (ident : string) (px py : Q) (s : State) :
  id (fst (newImage rnd imgs ident px py s)) = ident.
Proof.
  destruct s. run_newImage. reflexivity.
Qed.

Lemma newImage_src (ident : string) (px py : Q) (s : State) :
  src (fst (newImage rnd imgs ident px py s)) =
  index imgs (randomIndex (rnd (rngPos s)) (List.length imgs)).
Proof.
  destruct s. run_newImage. reflexivity.
Qed.

Lemma onTouch_unmounted (now : Z) (e : Pointer) (s : State) :
  containerRef s = false -> exec (onTouch rnd imgs now e) s = s.
Proof.
  destruct s. cbn [containerRef]. intros ->. reflexivity.
Qed.

Lemma onTouch_mounted (now : Z) (e : Pointer) (s : State) :
  containerRef s = true ->
  exec (onTouch rnd imgs now e) s =
  mkState
    (keepThreeAnd
       (fst (newImage rnd imgs (touchId now) (localX e) (localY e) s))
       (floatingImages s))
    (mousePosition s) (containerRef s) (imageCounter s) (cleanupTimer s)
    (timers s) (nextHandle s) (6 + rngPos s).
Proof.
  destruct s as [fi mp cr ic ct tm nh rp]. cbn [containerRef]. intros ->.
  run_handler. rewrite newImage_state. reflexivity.
Qed.

Lemma onMouseLeave_state (now : Z) (s : State) :
  exec (onMouseLeave now) s =
  mkState (floatingImages s) (mousePosition s) (containerRef s)
    (imageCounter s) (cleanupTimer s)
    (timers s ++ [mkTimer (nextHandle s) (now + 200) ClearAll])
    (S (nextHandle s)) (rngPos s).
Proof.
  destruct s. reflexivity.
Qed.

Lemma onMouseMove_rejected (now : Z) (e : Pointer) (s : State) :
  accepts s now = false ->
  exec (onMouseMove rnd imgs now e) s =
  if containerRef s then putMousePosition (localX e, localY e) s else s.
Proof.
  destruct s as [fi mp cr ic ct tm nh rp]. unfold accepts.
  cbn [containerRef imageCounter].
  destruct cr; [| reflexivity].
  run_handler. destruct (now - ic <? 80); [reflexivity | discriminate].
Qed.

(** Running a handler body one statement at a time. *)

Lemma exec_seq {A B : Type} (m : Handler A) (k : Handler B) (s : State) :
  exec (m ;;; k) s = exec k (exec m s).
Proof. reflexivity. Qed.

Lemma exec_gets {A B : Type} (f : State -> A) (k : A -> Handler B)
  (s : State) :
  exec (v <- gets f ;; k v) s = exec (k (f s)) s.
Proof. reflexivity. Qed.

Lemma exec_modify (f : State -> State) (s : State) :
  exec (modify f) s = f s.
Proof. reflexivity. Qed.

Lemma exec_ret {A : Type} (a : A) (s : State) : exec (ret a) s = s.
Proof. reflexivity. Qed.

Lemma exec_random {B : Type} (k : Q -> Handler B) (s : State) :
  exec (r <- random rnd ;; k r) s
  = exec (k (rnd (rngPos s)))
      (mkState (floatingImages s) (mousePosition s) (containerRef s)
         (imageCounter s) (cleanupTimer s) (timers s) (nextHandle s)
         (S (rngPos s))).
Proof. reflexivity. Qed.

Lemma exec_setTimeout {B : Type} (cb : Callback) (now delay : Z)
  (k : nat -> Handler B) (s : State) :
  exec (h <- setTimeout cb now delay ;; k h) s
  = exec (k (nextHandle s))
      (mkState (floatingImages s) (mousePosition s) (containerRef s)
         (imageCounter s) (cleanupTimer s)
         (timers s ++ [mkTimer (nextHandle s) (now + delay) cb])
         (S (nextHandle s)) (rngPos s)).
Proof. reflexivity. Qed.

Lemma exec_spawnOne (now : Z) (x0 y0 : Q) (i : nat) (s : State) :
  exec (spawnOne rnd imgs now x0 y0 i) s
  = mkState
      (appendAndTrim (fst (newImage rnd imgs (mouseId now i) x0 y0 s))
         (floatingImages s))
      (mousePosition s) (containerRef s) (imageCounter s) (cleanupTimer s)
      (timers s) (nextHandle s) (6 + rngPos s).
Proof.
  unfold spawnOne, exec, bind, setFloatingImages, modify.
  cbn [fst snd]. rewrite newImage_state. reflexivity.
Qed.

Lemma onMouseMove_accepted (now : Z) (e : Pointer) (s : State) :
  accepts s now = true ->
  exists news : list FloatingImage,
    ((exists s0,
         news =
         [fst (newImage rnd imgs (mouseId now 0) (localX e) (localY e) s0)])
     \/
     (exists s0 s1,
         news =
         [fst (newImage rnd imgs (mouseId now 0) (localX e) (localY e) s0);
          fst (newImage rnd imgs (mouseId now 1) (localX e) (localY e) s1)]))
    /\
    exists rp,
      exec (onMouseMove rnd imgs now e) s =
      mkState
        (fold_left (fun l img => appendAndTrim img l) news (floatingImages s))
        (localX e, localY e) true now (Some (nextHandle s))
        (afterClear s ++ [mkTimer (nextHandle s) (now + 500) TrimToSix])
        (S (nextHandle s)) rp.
Proof.
  destruct s as [fi mp cr ic ct tm nh rp]. unfold accepts, afterClear.
  cbn [containerRef imageCounter cleanupTimer timers nextHandle
       floatingImages].
  destruct cr; [| discriminate].
  destruct (now - ic <? 80) eqn:E; [discriminate |]. intros _.
  pose (s0 := mkState fi (localX e, localY e) true now ct tm nh (S rp)).
  pose (s1 := mkState
                (appendAndTrim
                   (fst (newImage rnd imgs (mouseId now 0)
                           (localX e) (localY e) s0)) fi)
                (localX e, localY e) true now ct tm nh (6 + S rp)).
  unfold onMouseMove, setMousePosition.
  rewrite exec_gets. cbn [containerRef negb]. cbv zeta.
  rewrite exec_seq, exec_modify, exec_gets. state_fields.
  rewrite E, exec_seq, exec_modify, exec_random. state_fields.
  rewrite exec_seq.
  destruct (Qgtb (rnd rp) (literal (8 # 10))) eqn:Eg.
  - exists [fst (newImage rnd imgs (mouseId now 0) (localX e) (localY e) s0);
            fst (newImage rnd imgs (mouseId now 1) (localX e) (localY e) s1)].
    split; [right; exists s0, s1; reflexivity |].
    exists (6 + (6 + S rp))%nat.
    cbn [forFrom]. rewrite !exec_seq, exec_ret, !exec_spawnOne.
    state_fields. fold s0. fold s1.
    rewrite exec_gets. state_fields.
    rewrite exec_seq, exec_setTimeout, exec_modify.
    destruct ct; reflexivity.
  - exists [fst (newImage rnd imgs (mouseId now 0) (localX e) (localY e) s0)].
    split; [left; exists s0; reflexivity |].
    exists (6 + S rp)%nat.
    cbn [forFrom]. rewrite !exec_seq, exec_ret, !exec_spawnOne.
    state_fields. fold s0.
    rewrite exec_gets. state_fields.
    rewrite exec_seq, exec_setTimeout, exec_modify.
    destruct ct; reflexivity.
Qed.

End Handlers.

(** ** Timers *)

Lemma nextDue_Some (now : Z) (l : list Timer) (t : Timer) :
  nextDue now l = Some t -> In t l /\ due t <= now.
Proof.
  revert t. induction l as [| a l IH]; intros t; cbn [nextDue].
  - discriminate.
  - destruct (due a <=? now) eqn:Ea.
    + apply Z.leb_le in Ea.
      destruct (nextDue now l) as [u |].
      * destruct (IH u eq_refl) as [Hin Hdue].
        destruct (earlier a u); intros [= <-]; cbn; auto.
      * intros [= <-]. cbn. auto.
    + intros H. destruct (IH t H). cbn. auto.
Qed.

Lemma nextDue_None (now : Z) (l : list Timer) :
  nextDue now l = None -> forall t, In t l -> now < due t.
Proof.
  induction l as [| a l IH]; cbn [nextDue]; intros H t Ht.
  - destruct Ht.
  - destruct (due a <=? now) eqn:Ea.
    + destruct (nextDue now l); [destruct (earlier a t0) |]; discriminate.
    + apply Z.leb_gt in Ea. destruct Ht as [<- | Ht]; auto.
Qed.

Lemma dropTimer_In (h : nat) (l : list Timer) (t : Timer) :
  In t (dropTimer h l) <-> In t l /\ handle t <> h.
Proof.
  unfold dropTimer. rewrite filter_In, negb_true_iff, Nat.eqb_neq.
  reflexivity.
Qed.

Lemma dropTimer_shrinks (h : nat) (l : list Timer) :
  (List.length (dropTimer h l) <= List.length l)%nat.
Proof.
  unfold dropTimer. induction l as [| a l IH]; cbn; [lia |].
  destruct (negb (handle a =? h)%nat); cbn; lia.
Qed.

Lemma dropTimer_length (t : Timer) (l : list Timer) :
  In t l -> (List.length (dropTimer (handle t) l) < List.length l)%nat.
Proof.
  induction l as [| a l IH]; intros H; [destruct H |].
  cbn. destruct H as [-> | H].
  - rewrite Nat.eqb_refl. cbn.
    pose proof (dropTimer_shrinks (handle t) l). unfold dropTimer in *. lia.
  - specialize (IH H). unfold dropTimer in IH.
    destruct (negb (handle a =? handle t)%nat); cbn; lia.
Qed.

Lemma dropTimer_NoDup (h : nat) (l : list Timer) :
  NoDup (map handle l) -> NoDup (map handle (dropTimer h l)).
Proof.
  unfold dropTimer. induction l as [| a l IH]; cbn; intros H; [constructor |].
  inversion H as [| ? ? Hnot Hnd]; subst.
  destruct (negb (handle a =? h)%nat); cbn; auto.
  constructor; auto.
  rewrite in_map_iff in *. intros [u [Hu Hin]]. apply Hnot.
  exists u. split; auto. apply filter_In in Hin. tauto.
Qed.

Lemma fire_timers (t : Timer) (s : State) :
  timers (fire t s) = dropTimer (handle t) (timers s).
Proof.
  unfold fire. destruct (callback t); reflexivity.
Qed.

Lemma fire_floatingImages (t : Timer) (s : State) :
  floatingImages (fire t s) =
  match callback t with
  | TrimToSix => trimToSix (floatingImages s)
  | ClearAll => []
  end.
Proof.
  unfold fire. destruct (callback t); reflexivity.
Qed.

Lemma fire_refs (t : Timer) (s : State) :
  containerRef (fire t s) = containerRef s /\
  imageCounter (fire t s) = imageCounter s /\
  cleanupTimer (fire t s) = cleanupTimer s /\
  nextHandle (fire t s) = nextHandle s.
Proof.
  unfold fire. destruct (callback t); cbn; auto.
Qed.

Lemma fire_le_6 (t : Timer) (s : State) :
  (List.length (floatingImages (fire t s)) <= 6)%nat.
Proof.
  rewrite fire_floatingImages. destruct (callback t); cbn; [| lia].
  apply sliceLast_le.
Qed.

Lemma fire_shrinks (t : Timer) (s : State) :
  (List.length (floatingImages (fire t s))
   <= List.length (floatingImages s))%nat.
Proof.
  rewrite fire_floatingImages. destruct (callback t); cbn; [| lia].
  apply sliceLast_shrinks.
Qed.

(** What holds before [advance] and survives every due timer holds after. *)
Lemma advanceFuel_invariant (P : State -> Prop) (now : Z) :
  (forall s t, P s -> In t (timers s) -> due t <= now -> P (fire t s)) ->
  forall fuel s, P s -> P (advanceFuel fuel now s).
Proof.
  intros Hfire. induction fuel as [| fuel IH]; intros s Hs; cbn; auto.
  destruct (nextDue now (timers s)) as [t |] eqn:E; auto.
  apply nextDue_Some in E. destruct E. apply IH. now apply Hfire.
Qed.

Lemma advance_invariant (P : State -> Prop) (now : Z) (s : State) :
  (forall s t, P s -> In t (timers s) -> due t <= now -> P (fire t s)) ->
  P s -> P (advance now s).
Proof.
  intros Hfire Hs. unfold advance. now apply advanceFuel_invariant.
Qed.

(** [advance] has enough fuel: no due timer is left pending. *)
Lemma advanceFuel_settled (now : Z) :
  forall fuel s,
    (List.length (timers s) <= fuel)%nat ->
    forall t, In t (timers (advanceFuel fuel now s)) -> now < due t.
Proof.
  induction fuel as [| fuel IH]; intros s Hlen t Ht; cbn in Ht.
  - destruct (timers s); [destruct Ht | cbn in Hlen; lia].
  - destruct (nextDue now (timers s)) as [u |] eqn:E.
    + apply nextDue_Some in E. destruct E as [Hin _].
      apply (IH (fire u s)); auto. rewrite fire_timers.
      pose proof (dropTimer_length u (timers s) Hin). lia.
    + eapply nextDue_None; eauto.
Qed.

Lemma advance_settled (now : Z) (s : State) (t : Timer) :
  In t (timers (advance now s)) -> now < due t.
Proof.
  unfold advance. apply advanceFuel_settled. lia.
Qed.

(** When a timer is due, [advance] starts by firing one. *)
Lemma advance_fires (now : Z) (s : State) (t : Timer) :
  In t (timers s) -> due t <= now ->
  exists u fuel,
    In u (timers s) /\ advance now s = advanceFuel fuel now (fire u s).
Proof.
  intros Hin Hdue. unfold advance.
  destruct (timers s) as [| a l] eqn:El; [destruct Hin |].
  cbn [List.length advanceFuel]. rewrite El.
  destruct (nextDue now (a :: l)) as [u |] eqn:E.
  - exists u, (List.length l). split; auto.
    apply nextDue_Some in E. tauto.
  - pose proof (nextDue_None _ _ E t Hin). lia.
Qed.

(** ** The event loop *)

Lemma render_empty (p : BannerProps) (s : State) :
  images p = [] -> render p s = None.
Proof.
  unfold render. intros ->. reflexivity.
Qed.

Lemma attached_nonempty (p : BannerProps) (s : State) (l : Listener) :
  attached p s l = true -> images p <> [].
Proof.
  unfold attached. intros H E. rewrite (render_empty p s E) in H.
  discriminate.
Qed.

Lemma attached_of_nonempty (p : BannerProps) (s : State) (l : Listener) :
  images p <> [] -> attached p s l = true.
Proof.
  unfold attached, render. destruct (images p) as [| a r]; [congruence |].
  intros _. destruct l; reflexivity.
Qed.

Lemma mount_containerRef (p : BannerProps) :
  images p <> [] -> containerRef (mount p) = true.
Proof.
  unfold mount, render. destruct (images p); [congruence | reflexivity].
Qed.

Section Loop.

Variable rnd : nat -> Q.
Variable props : BannerProps.

Lemma handle_unattached (ev : Event) (s : State) :
  images props = [] -> handle_ rnd props ev s = s.
Proof.
  intros E. unfold handle_, attached. rewrite (render_empty props s E).
  destruct (listenerOf ev); reflexivity.
Qed.

Lemma handle_attached (ev : Event) (s : State) :
  images props <> [] ->
  handle_ rnd props ev s = exec (handlerOf rnd props ev) s.
Proof.
  intros E. unfold handle_.
  destruct ev; cbn [listenerOf]; try rewrite attached_of_nonempty by easy;
    reflexivity.
Qed.

(** Induction over a run: a property that every due timer and every
    handler of an admitted event preserves holds all along. *)
Lemma deliver_invariant (P : State -> Prop) (E : Event -> Prop) :
  (forall s t ev,
      E ev -> P s -> In t (timers s) -> due t <= timeOf ev ->
      P (fire t s)) ->
  (forall s ev,
      E ev -> P s -> images props <> [] ->
      P (exec (handlerOf rnd props ev) s)) ->
  forall s ev, E ev -> P s -> P (deliver rnd props s ev).
Proof.
  intros Hfire Hhandle s ev Hev Hs. unfold deliver.
  assert (Ha : P (advance (timeOf ev) s)).
  { apply advance_invariant; auto. intros. eapply Hfire; eauto. }
  assert (Hi : images props = [] \/ images props <> []).
  { destruct (images props); [now left | now right]. }
  destruct Hi as [Hi | Hi].
  - rewrite handle_unattached; auto.
  - rewrite handle_attached by exact Hi. apply Hhandle; auto.
Qed.

Lemma run_invariant (P : State -> Prop) (E : Event -> Prop) :
  (forall s t ev,
      E ev -> P s -> In t (timers s) -> due t <= timeOf ev ->
      P (fire t s)) ->
  (forall s ev,
      E ev -> P s -> images props <> [] ->
      P (exec (handlerOf rnd props ev) s)) ->
  forall evs s, Forall E evs -> P s -> P (run rnd props s evs).
Proof.
  intros Hfire Hhandle. induction evs as [| ev evs IH]; intros s Hevs Hs.
  - exact Hs.
  - inversion Hevs; subst. cbn. apply IH; auto.
    apply deliver_invariant with (E := E); auto.
Qed.

Lemma run_app (s : State) (evs1 evs2 : list Event) :
  run rnd props s (evs1 ++ evs2) =
  run rnd props (run rnd props s evs1) evs2.
Proof.
  unfold run. apply fold_left_app.
Qed.

End Loop.

(** ** PlaceholderImage *)

(** C7. PlaceholderImage is a function of its props alone.  Called with
    no props it binds width 800, height 600, color "3498db" and text
    "Image", and the graphic declares that width and height, fills with
    "#3498db" and is labelled "Image".  For every width [w], height [h],
    color [c] and text [t] the graphic declares width [w] and height [h],
    its view box is [0 0 w h], and its label is [t]. *)
Theorem placeholder_defaults_and_passthrough :
  (PlaceholderImage.resolve PlaceholderImage.noProps =
   PlaceholderImage.mkResolved (800 # 1) (600 # 1) "3498db" "Image"
   /\
   let g := PlaceholderImage.PlaceholderImage PlaceholderImage.noProps in
   PlaceholderImage.svg_width g = 800 # 1 /\
   PlaceholderImage.svg_height g = 600 # 1 /\
   PlaceholderImage.rect_fill (PlaceholderImage.svg_rect g) = "#3498db" /\
   PlaceholderImage.text_children (PlaceholderImage.svg_text g) = "Image")
  /\
  (forall (w h : Q) (c t : string),
      let g :=
        PlaceholderImage.PlaceholderImage
          (PlaceholderImage.mkProps (Some w) (Some h) (Some c) (Some t)) in
      PlaceholderImage.svg_width g = w /\
      PlaceholderImage.svg_height g = h /\
      PlaceholderImage.viewBox g = [Lit "0 0 "; Num w; Lit " "; Num h] /\
      PlaceholderImage.rect_fill (PlaceholderImage.svg_rect g)
      = ("#" ++ c)%string /\
      PlaceholderImage.text_children (PlaceholderImage.svg_text g) = t)
  /\
  (forall p : PlaceholderImage.Props,
      let g := PlaceholderImage.PlaceholderImage p in
      PlaceholderImage.svg_width g
      = withDefault (800 # 1) (PlaceholderImage.width p) /\
      PlaceholderImage.svg_height g
      = withDefault (600 # 1) (PlaceholderImage.height p) /\
      PlaceholderImage.text_children (PlaceholderImage.svg_text g)
      = withDefault "Image" (PlaceholderImage.text p)).
Proof.
  split; [| split].
  - cbn. repeat split.
  - intros w h c t. cbn. repeat split.
  - intros p. cbn. repeat split.
Qed.

(** ** Banner: the render guard and the unused prop *)

(** C6. With [images = []] the component returns [null]: no container, so
    no listener is attached and no floating image is rendered; and whatever
    events are sent, the floating-image list stays empty. *)
Theorem empty_images_render_nothing
  (rnd : nat -> Q) (p : BannerProps) (s : State) (l : Listener)
  (evs : list Event) :
  images p = [] ->
  render p s = None /\
  attached p s l = false /\
  floatingImages (run rnd p (mount p) evs) = [].
Proof.
  intros E. split; [| split].
  - now apply render_empty.
  - unfold attached. now rewrite render_empty.
  - apply (run_invariant rnd p (fun s => floatingImages s = [])
             (fun _ => True)).
    + intros s0 t _ _ H _ _. rewrite fire_floatingImages, H.
      destruct (callback t); reflexivity.
    + intros; congruence.
    + apply Forall_forall. auto.
    + reflexivity.
Qed.

Lemma empty_images_render_nothing_witness :
  render Sample.noPhotos (mount Sample.noPhotos) = None /\
  attached Sample.noPhotos (mount Sample.noPhotos) OnMouseMove = false /\
  floatingImages
    (run Sample.draws Sample.noPhotos (mount Sample.noPhotos)
       [MouseMove 1000 Sample.at_100_200; TouchMove 1100 Sample.at_100_200])
  = [].
Proof.
  apply (empty_images_render_nothing Sample.draws Sample.noPhotos).
  reflexivity.
Defined.

(** C9. Two runs whose props differ only in [autoRotateMs] are the same
    run: the first commit, every delivery of an event, every state reached
    and every render coincide. *)
Theorem autoRotateMs_is_not_consumed
  (rnd : nat -> Q) (p1 p2 : BannerProps) :
  images p1 = images p2 ->
  altText p1 = altText p2 ->
  mount p1 = mount p2 /\
  (forall s, render p1 s = render p2 s) /\
  (forall s ev, deliver rnd p1 s ev = deliver rnd p2 s ev) /\
  (forall s evs, run rnd p1 s evs = run rnd p2 s evs) /\
  (forall evs,
      render p1 (run rnd p1 (mount p1) evs)
      = render p2 (run rnd p2 (mount p2) evs)).
Proof.
  intros Hi Ha.
  assert (Hr : forall s, render p1 s = render p2 s).
  { intros s. unfold render. now rewrite Hi, Ha. }
  assert (Hm : mount p1 = mount p2).
  { unfold mount. now rewrite Hr. }
  assert (Hd : forall s ev, deliver rnd p1 s ev = deliver rnd p2 s ev).
  { intros s ev. unfold deliver, handle_, attached, handlerOf.
    rewrite Hr, Hi. reflexivity. }
  assert (Hrun : forall evs s, run rnd p1 s evs = run rnd p2 s evs).
  { induction evs as [| ev evs IH]; intros s; cbn; [reflexivity |].
    rewrite Hd. apply IH. }
  repeat split; auto.
  intros evs. now rewrite Hr, Hm, Hrun.
Qed.

Lemma autoRotateMs_is_not_consumed_witness :
  mount Sample.props = mount Sample.propsRotating /\
  (forall s, render Sample.props s = render Sample.propsRotating s) /\
  (forall s ev,
      deliver Sample.draws Sample.props s ev
      = deliver Sample.draws Sample.propsRotating s ev) /\
  (forall s evs,
      run Sample.draws Sample.props s evs
      = run Sample.draws Sample.propsRotating s evs) /\
  (forall evs,
      render Sample.props (run Sample.draws Sample.props
                             (mount Sample.props) evs)
      = render Sample.propsRotating
          (run Sample.draws Sample.propsRotating
             (mount Sample.propsRotating) evs)).
Proof.
  apply (autoRotateMs_is_not_consumed Sample.draws
           Sample.props Sample.propsRotating); reflexivity.
Defined.

(** ** Random placement and the choice of the photo *)

Ltac by_computation :=
  vm_compute; first [reflexivity | discriminate].

Lemma doubles_in_range : InRange Sample.doubles.
Proof.
  intros n. unfold Sample.doubles.
  pose proof (Nat.mod_upper_bound (n * 5) 8) as H.
  destruct ((n * 5) mod 8)%nat as [| [| [| [| [| [| [| [| k]]]]]]]];
    try lia; (split; [| split]); by_computation.
Qed.

Lemma zeros_in_range : InRange Sample.zeros.
Proof.
  intros n. split; [| split]; by_computation.
Qed.

Lemma Qfloor_range (x : Q) (n : Z) :
  (0 <= x)%Q -> (x < inject_Z n)%Q -> 0 <= Qfloor x /\ Qfloor x < n.
Proof.
  intros H0 Hn. split.
  - rewrite <- (Qfloor_Z 0). now apply Qfloor_resp_le.
  - rewrite Zlt_Qlt. apply Qle_lt_trans with x; [apply Qfloor_le | exact Hn].
Qed.

(** A double in [[0, 1)] times a positive length, rounded and floored, is
    an index below the length. *)
Lemma randomIndex_in_bounds (r : Q) (len : nat) :
  IsDouble r -> (0 <= r)%Q -> (r < 1)%Q -> (0 < len)%nat ->
  0 <= randomIndex r len /\ randomIndex r len < Z.of_nat len.
Proof.
  intros Hd H0 H1 Hlen. unfold randomIndex, mul64.
  destruct (round64_scaled_below r (Z.of_nat len)) as [Hl Hu];
    [exact H0 | now apply double_below_one | lia |].
  now apply Qfloor_range.
Qed.

Lemma index_in_bounds {A : Type} (arr : list A) (i : Z) :
  0 <= i < Z.of_nat (List.length arr) ->
  exists a, index arr i = Some a /\ In a arr.
Proof.
  intros [H0 H1]. unfold index.
  destruct (i <? 0) eqn:E; [apply Z.ltb_lt in E; lia |].
  destruct (nth_error arr (Z.to_nat i)) as [a |] eqn:En.
  - exists a. split; auto. eapply nth_error_In; eauto.
  - apply nth_error_None in En. lia.
Qed.

Lemma fold_appendAndTrim_In (news l : list FloatingImage)
  (a : FloatingImage) :
  In a (fold_left (fun l img => appendAndTrim img l) news l) ->
  In a l \/ In a news.
Proof.
  revert l. induction news as [| n news IH]; intros l H; cbn in *; auto.
  apply IH in H. destruct H as [H | H]; auto.
  unfold appendAndTrim in H. apply sliceLast_In in H.
  apply in_app_or in H. cbn in H. tauto.
Qed.

(** [Math.random() - 0.5] for a draw in [[0, 1)]. *)
Lemma centred_draw (r : Q) :
  (0 <= r)%Q -> (r < 1)%Q ->
  (- (1 # 2) <= sub64 r (1 # 2) /\ sub64 r (1 # 2) <= 1 # 2)%Q.
Proof.
  intros H0 H1. unfold sub64. split.
  - apply Qle_trans with (round64 (- (1 # 2))); [by_computation |].
    apply round64_mono. lra.
  - apply Qle_trans with (round64 (1 # 2)); [| by_computation].
    apply round64_mono. lra.
Qed.

(** [(Math.random() - 0.5) * 100]. *)
Lemma spread_100 (d : Q) :
  (- (1 # 2) <= d)%Q -> (d <= 1 # 2)%Q ->
  (- (50 # 1) <= mul64 d (100 # 1) /\ mul64 d (100 # 1) <= 50 # 1)%Q.
Proof.
  intros Hl Hu. unfold mul64. split.
  - apply Qle_trans with (round64 (- (50 # 1))); [by_computation |].
    apply round64_mono. lra.
  - apply Qle_trans with (round64 (50 # 1)); [| by_computation].
    apply round64_mono. lra.
Qed.

(** [(Math.random() - 0.5) * 12]. *)
Lemma spread_12 (d : Q) :
  (- (1 # 2) <= d)%Q -> (d <= 1 # 2)%Q ->
  (- (6) <= mul64 d (12 # 1) /\ mul64 d (12 # 1) <= 6)%Q.
Proof.
  intros Hl Hu. unfold mul64. split.
  - apply Qle_trans with (round64 (- (6 # 1))); [by_computation |].
    apply round64_mono. lra.
  - apply Qle_trans with (round64 (6 # 1)); [| by_computation].
    apply round64_mono. lra.
Qed.

(** [x + d] for an offset [d] between -50 and 50. *)
Lemma offset_50 (px d : Q) :
  (- (50 # 1) <= d)%Q -> (d <= 50 # 1)%Q ->
  (sub64 px (50 # 1) <= add64 px d /\ add64 px d <= add64 px (50 # 1))%Q.
Proof.
  intros Hl Hu. unfold sub64, add64. split; apply round64_mono; lra.
Qed.

(** [0.9 + Math.random() * 0.3]. *)
Lemma scale_range (r : Q) :
  (0 <= r)%Q -> (r < 1)%Q ->
  ((9 # 10) <= add64 (literal (9 # 10)) (mul64 r (literal (3 # 10))) /\
   add64 (literal (9 # 10)) (mul64 r (literal (3 # 10))) <= 12 # 10)%Q.
Proof.
  intros H0 H1.
  assert (Hc : (0 < literal (3 # 10))%Q) by by_computation.
  assert (Hm : (0 <= mul64 r (literal (3 # 10))
                /\ mul64 r (literal (3 # 10)) <= literal (3 # 10))%Q).
  { unfold mul64. split.
    - apply round64_nonneg. nra.
    - apply Qle_trans with (round64 (literal (3 # 10))); [| by_computation].
      apply round64_mono. nra. }
  destruct Hm as [Hm0 Hm1]. unfold add64. split.
  - apply Qle_trans with (round64 (literal (9 # 10))); [by_computation |].
    apply round64_mono. lra.
  - apply Qle_trans
      with (round64 (literal (9 # 10) + literal (3 # 10)));
      [| by_computation].
    apply round64_mono. lra.
Qed.

(** [Math.floor(Math.random() * 15)]. *)
Lemma zIndex_range (r : Q) :
  IsDouble r -> (0 <= r)%Q -> (r < 1)%Q ->
  0 <= Qfloor (mul64 r (15 # 1)) /\ Qfloor (mul64 r (15 # 1)) < 15.
Proof.
  intros Hd H0 H1. pose proof (double_below_one r Hd H1) as Hb.
  apply Qfloor_range; unfold mul64.
  - apply round64_nonneg. lra.
  - apply Qle_lt_trans with (round64 (belowOne * (15 # 1)));
      [| by_computation].
    apply round64_mono. lra.
Qed.

Section Placement.

Variable rnd : nat -> Q.
Hypothesis rnd_range : InRange rnd.

Lemma newImage_rounded (imgs : list string) (ident : string) (px py : Q)
  (s : State) :
  JitteredRounded px py (fst (newImage rnd imgs ident px py s)).
Proof.
  destruct s as [fi mp cr ic ct tm nh rp]. run_newImage.
  unfold JitteredRounded, withProps.
  cbn [x y rotation scale zIndex rp_x rp_y rp_rotation rp_scale rp_zIndex].
  destruct (rnd_range (S rp)) as [_ [Hx0 Hx1]].
  destruct (rnd_range (S (S rp))) as [_ [Hy0 Hy1]].
  destruct (rnd_range (S (S (S rp)))) as [_ [Hr0 Hr1]].
  destruct (rnd_range (S (S (S (S rp))))) as [_ [Hs0 Hs1]].
  destruct (rnd_range (S (S (S (S (S rp)))))) as [Hzd [Hz0 Hz1]].
  destruct (centred_draw _ Hx0 Hx1) as [Hxl Hxu].
  destruct (centred_draw _ Hy0 Hy1) as [Hyl Hyu].
  destruct (centred_draw _ Hr0 Hr1) as [Hrl Hru].
  split; [| split; [| split; [| split]]].
  - apply offset_50; now apply spread_100.
  - apply offset_50; now apply spread_100.
  - now apply spread_12.
  - now apply scale_range.
  - now apply zIndex_range.
Qed.

Lemma newImage_from_images (imgs : list string) (ident : string)
  (px py : Q) (s : State) :
  imgs <> [] -> FromImages imgs (fst (newImage rnd imgs ident px py s)).
Proof.
  intros Hne. unfold FromImages. rewrite newImage_src.
  apply index_in_bounds. destruct (rnd_range (rngPos s)) as [Hd [H0 H1]].
  apply randomIndex_in_bounds; auto.
  destruct imgs; [congruence | cbn; lia].
Qed.

End Placement.

(** What a handler leaves in the list is old or was made by this event. *)
Lemma onMouseMove_images (rnd : nat -> Q) (imgs : list string) (now : Z)
  (e : Pointer) (s : State) (P : FloatingImage -> Prop) :
  (forall ident s0, P (fst (newImage rnd imgs ident (localX e) (localY e) s0)))
  ->
  Forall (fun img => In img (floatingImages s) \/ P img)
    (floatingImages (exec (onMouseMove rnd imgs now e) s)).
Proof.
  intros HP. apply Forall_forall. intros img Hin.
  destruct (accepts s now) eqn:Ea.
  - destruct (onMouseMove_accepted rnd imgs now e s Ea)
      as [news [Hnews [rp Heq]]].
    rewrite Heq in Hin. cbn [floatingImages] in Hin.
    apply fold_appendAndTrim_In in Hin. destruct Hin as [Hin | Hin]; auto.
    right.
    destruct Hnews as [[s0 ->] | [s0 [s1 ->]]]; cbn [In] in Hin.
    + destruct Hin as [<- | []]. apply HP.
    + destruct Hin as [<- | [<- | []]]; apply HP.
  - rewrite (onMouseMove_rejected rnd imgs now e s Ea) in Hin.
    destruct (containerRef s); auto.
Qed.

Lemma onTouch_images (rnd : nat -> Q) (imgs : list string) (now : Z)
  (e : Pointer) (s : State) (P : FloatingImage -> Prop) :
  (forall ident s0, P (fst (newImage rnd imgs ident (localX e) (localY e) s0)))
  ->
  Forall (fun img => In img (floatingImages s) \/ P img)
    (floatingImages (exec (onTouch rnd imgs now e) s)).
Proof.
  intros HP. apply Forall_forall. intros img Hin.
  destruct (containerRef s) eqn:Ec.
  - rewrite (onTouch_mounted rnd imgs now e s Ec) in Hin.
    cbn [floatingImages] in Hin. unfold keepThreeAnd in Hin.
    apply in_app_or in Hin. destruct Hin as [Hin | [<- | []]]; auto.
    left. now apply sliceLast_In in Hin.
  - rewrite (onTouch_unmounted rnd imgs now e s Ec) in Hin. auto.
Qed.

(** C3. When every [Math.random()] is a double in [[0, 1)], the image that
    a pointer-move or touch-move at local coordinates [(px, py)] creates has
    [x] between the doubles [px - 50] and [px + 50] (the two bounds rounded
    as the code rounds its own sum), [y] between the doubles [py - 50] and
    [py + 50], [rotation] in [[-6, 6]], [scale] in [[0.9, 1.2]] and an
    integer [zIndex] with [0 <= zIndex < 15]; and every image in the list
    after either handler was already there or is such an image for the
    event's local coordinates. *)
Theorem spawned_image_stays_near_pointer (rnd : nat -> Q) :
  InRange rnd ->
  (forall imgs ident px py s,
      JitteredRounded px py (fst (newImage rnd imgs ident px py s)))
  /\
  (forall imgs now e s,
      Forall
        (fun img =>
           In img (floatingImages s)
           \/ JitteredRounded (localX e) (localY e) img)
        (floatingImages (exec (onMouseMove rnd imgs now e) s)))
  /\
  (forall imgs now e s,
      Forall
        (fun img =>
           In img (floatingImages s)
           \/ JitteredRounded (localX e) (localY e) img)
        (floatingImages (exec (onTouch rnd imgs now e) s))).
Proof.
  intros Hr. split; [| split].
  - intros. now apply newImage_rounded.
  - intros. apply onMouseMove_images. intros. now apply newImage_rounded.
  - intros. apply onTouch_images. intros. now apply newImage_rounded.
Qed.

Lemma spawned_image_stays_near_pointer_witness :
  JitteredRounded (100 # 1) (200 # 1)
    (fst (newImage Sample.doubles Sample.photos "img-1000-0"
            (100 # 1) (200 # 1) (mount Sample.props))).
Proof.
  apply (spawned_image_stays_near_pointer Sample.doubles doubles_in_range).
Defined.

(** The exact bound of 50 can be missed by the last rounding: with every
    draw equal to 0, a pointer-move at local coordinates (0.3, 0) stores an
    [x] below [0.3 - 50]. *)
Lemma spawned_x_misses_by_a_rounding :
  let e := Sample.at_0_3 in
  let s :=
    run Sample.zeros Sample.props (mount Sample.props) [MouseMove 1000 e] in
  InRange Sample.zeros /\
  exists img,
    floatingImages s = [img] /\
    (x img < localX e - 50)%Q /\
    ~ Jittered (localX e) (localY e) img.
Proof.
  cbv zeta. split; [exact zeros_in_range |].
  eexists. split; [vm_compute; reflexivity |].
  split; [by_computation |].
  intros [[Hx _] _]. apply Qle_not_lt in Hx. apply Hx. by_computation.
Qed.

(** C10. A listener is attached only when [images] is non-empty; then, for
    a draw [r] that is a double in [[0, 1)], the index
    [floor(r * images.length)] is within the bounds of [images], the image
    built by a spawn has one of the [images] as its [src], and so has every
    image in the list in every state the component reaches. *)
Theorem spawn_picks_a_configured_image (rnd : nat -> Q) (p : BannerProps) :
  InRange rnd ->
  (forall s l, attached p s l = true -> images p <> [])
  /\
  (forall r,
      IsDouble r -> (0 <= r)%Q -> (r < 1)%Q -> images p <> [] ->
      0 <= randomIndex r (List.length (images p))
      /\ randomIndex r (List.length (images p))
         < Z.of_nat (List.length (images p)))
  /\
  (forall ident px py s,
      images p <> [] ->
      FromImages (images p) (fst (newImage rnd (images p) ident px py s)))
  /\
  (forall evs,
      Forall (FromImages (images p))
        (floatingImages (run rnd p (mount p) evs))).
Proof.
  intros Hr. split; [| split; [| split]].
  - intros s l. apply attached_nonempty.
  - intros r Hd H0 H1 Hne. apply randomIndex_in_bounds; auto.
    destruct (images p); [congruence | cbn; lia].
  - intros. now apply newImage_from_images.
  - intros evs.
    apply (run_invariant rnd p
             (fun s => Forall (FromImages (images p)) (floatingImages s))
             (fun _ => True)).
    + intros s t _ _ H _ _. rewrite fire_floatingImages.
      destruct (callback t); [now apply sliceLast_Forall | constructor].
    + intros s ev _ H Hne.
      assert (Hnew : forall ident px py s0,
                 FromImages (images p)
                   (fst (newImage rnd (images p) ident px py s0))).
      { intros. now apply newImage_from_images. }
      rewrite Forall_forall in *.
      destruct ev as [now e | now | now e | now]; cbn [handlerOf].
      * intros img Hin.
        pose proof (onMouseMove_images rnd (images p) now e s
                      (FromImages (images p))) as Hm.
        rewrite Forall_forall in Hm.
        destruct (Hm (fun i s0 => Hnew i _ _ s0) img Hin); auto.
      * rewrite onMouseLeave_state. exact H.
      * intros img Hin.
        pose proof (onTouch_images rnd (images p) now e s
                      (FromImages (images p))) as Hm.
        rewrite Forall_forall in Hm.
        destruct (Hm (fun i s0 => Hnew i _ _ s0) img Hin); auto.
      * exact H.
    + apply Forall_forall. auto.
    + constructor.
Qed.

Lemma spawn_picks_a_configured_image_witness :
  Forall (FromImages Sample.photos)
    (floatingImages
       (run Sample.doubles Sample.props (mount Sample.props)
          [MouseMove 1000 Sample.at_100_200;
           TouchMove 1100 Sample.at_100_200])).
Proof.
  apply (spawn_picks_a_configured_image Sample.doubles Sample.props
           doubles_in_range).
Defined.

(** ** The ref and the throttle counter along a run *)

Section Reachable.

Variable rnd : nat -> Q.
Variable props : BannerProps.

Lemma handler_containerRef (ev : Event) (s : State) :
  containerRef (exec (handlerOf rnd props ev) s) = containerRef s.
Proof.
  destruct ev as [now e | now | now e | now]; cbn [handlerOf].
  - destruct (accepts s now) eqn:Ea.
    + destruct (onMouseMove_accepted rnd (images props) now e s Ea)
        as [news [_ [rp ->]]].
      unfold accepts in Ea. apply andb_prop in Ea. cbn. now destruct Ea.
    + rewrite onMouseMove_rejected by exact Ea.
      destruct (containerRef s) eqn:Ec; [exact Ec | exact Ec].
  - rewrite onMouseLeave_state. reflexivity.
  - destruct (containerRef s) eqn:Ec.
    + rewrite onTouch_mounted by exact Ec. exact Ec.
    + rewrite onTouch_unmounted by exact Ec. exact Ec.
  - reflexivity.
Qed.

Lemma run_containerRef (s : State) (evs : list Event) :
  containerRef (run rnd props s evs) = containerRef s.
Proof.
  apply (run_invariant rnd props
           (fun s' => containerRef s' = containerRef s) (fun _ => True)).
  - intros s0 t _ _ H _ _. destruct (fire_refs t s0) as [-> _]. exact H.
  - intros s0 ev _ H _. now rewrite handler_containerRef.
  - apply Forall_forall. auto.
  - reflexivity.
Qed.

Lemma reachable_containerRef (evs : list Event) :
  images props <> [] ->
  containerRef (run rnd props (mount props) evs) = true.
Proof.
  intros Hne. rewrite run_containerRef. now apply mount_containerRef.
Qed.

Lemma advance_containerRef (now : Z) (s : State) :
  containerRef (advance now s) = containerRef s.
Proof.
  apply (advance_invariant (fun s' => containerRef s' = containerRef s)).
  - intros s0 t H _ _. destruct (fire_refs t s0) as [-> _]. exact H.
  - reflexivity.
Qed.

Lemma advance_imageCounter (now : Z) (s : State) :
  imageCounter (advance now s) = imageCounter s.
Proof.
  apply (advance_invariant (fun s' => imageCounter s' = imageCounter s)).
  - intros s0 t H _ _. destruct (fire_refs t s0) as [_ [-> _]]. exact H.
  - reflexivity.
Qed.

(** The counter only moves forward, and only by steps of 80 or more. *)
Lemma handler_imageCounter (ev : Event) (s : State) :
  imageCounter s <= imageCounter (exec (handlerOf rnd props ev) s).
Proof.
  destruct ev as [now e | now | now e | now]; cbn [handlerOf].
  - destruct (accepts s now) eqn:Ea.
    + destruct (onMouseMove_accepted rnd (images props) now e s Ea)
        as [news [_ [rp ->]]].
      unfold accepts in Ea. apply andb_prop in Ea. destruct Ea as [_ Ea].
      apply negb_true_iff, Z.ltb_ge in Ea. cbn. lia.
    + rewrite onMouseMove_rejected by exact Ea.
      destruct (containerRef s); cbn; lia.
  - rewrite onMouseLeave_state. cbn. lia.
  - destruct (containerRef s) eqn:Ec.
    + rewrite onTouch_mounted by exact Ec. cbn. lia.
    + rewrite onTouch_unmounted by exact Ec. lia.
  - cbn. lia.
Qed.

Lemma run_imageCounter (s : State) (evs : list Event) :
  imageCounter s <= imageCounter (run rnd props s evs).
Proof.
  apply (run_invariant rnd props
           (fun s' => imageCounter s <= imageCounter s') (fun _ => True)).
  - intros s0 t _ _ H _ _. destruct (fire_refs t s0) as [_ [-> _]]. exact H.
  - intros s0 ev _ H _. pose proof (handler_imageCounter ev s0). lia.
  - apply Forall_forall. auto.
  - lia.
Qed.

End Reachable.

(** ** The throttle *)

(** C2. Let a pointer-move at time [t] be accepted (its burst is spawned)
    in a state the component reached.  Then, whatever events follow, a
    pointer-move whose timestamp [t'] is below [t + 80] is not accepted:
    its handler leaves the floating-image list and the throttle counter as
    they were when it was called.  So two accepted bursts are at least 80ms
    apart. *)
Theorem throttle_one_burst_per_80ms
  (rnd : nat -> Q) (p : BannerProps) (evs0 evs : list Event)
  (t t' : Z) (e e' : Pointer) :
  let s0 := advance t (run rnd p (mount p) evs0) in
  let s1 := run rnd p (deliver rnd p (run rnd p (mount p) evs0)
                         (MouseMove t e)) evs in
  accepts s0 t = true ->
  t' < t + 80 ->
  accepts (advance t' s1) t' = false /\
  floatingImages (deliver rnd p s1 (MouseMove t' e'))
  = floatingImages (advance t' s1) /\
  imageCounter (deliver rnd p s1 (MouseMove t' e')) = imageCounter s1.
Proof.
  intros s0 s1 Ha Hlt.
  assert (Hne : images p <> []).
  { intros E. unfold accepts in Ha. apply andb_prop in Ha.
    destruct Ha as [Hc _]. unfold s0 in Hc.
    rewrite advance_containerRef, run_containerRef in Hc.
    unfold mount in Hc. rewrite (render_empty p _ E) in Hc.
    discriminate. }
  assert (Ht : t <= imageCounter s1).
  { unfold s1. eapply Z.le_trans; [| apply run_imageCounter].
    unfold deliver. rewrite handle_attached by exact Hne.
    cbn [handlerOf timeOf]. fold s0.
    destruct (onMouseMove_accepted rnd (images p) t e s0 Ha)
      as [news [_ [rp ->]]].
    cbn. lia. }
  assert (Hrej : accepts (advance t' s1) t' = false).
  { unfold accepts. rewrite advance_imageCounter.
    apply andb_false_iff. right. apply negb_false_iff, Z.ltb_lt. lia. }
  split; [exact Hrej |].
  unfold deliver. rewrite handle_attached by exact Hne.
  cbn [handlerOf timeOf]. rewrite onMouseMove_rejected by exact Hrej.
  rewrite <- (advance_imageCounter t' s1).
  destruct (containerRef (advance t' s1)); split; reflexivity.
Qed.

Lemma throttle_one_burst_per_80ms_witness :
  let s1 :=
    run Sample.draws Sample.props
      (deliver Sample.draws Sample.props
         (run Sample.draws Sample.props (mount Sample.props) [])
         (MouseMove 1000 Sample.at_100_200))
      [TouchMove 1010 Sample.at_100_200] in
  accepts (advance 1079 s1) 1079 = false /\
  floatingImages
    (deliver Sample.draws Sample.props s1 (MouseMove 1079 Sample.at_100_200))
  = floatingImages (advance 1079 s1) /\
  imageCounter
    (deliver Sample.draws Sample.props s1 (MouseMove 1079 Sample.at_100_200))
  = imageCounter s1.
Proof.
  apply (throttle_one_burst_per_80ms Sample.draws Sample.props []
           [TouchMove 1010 Sample.at_100_200] 1000 1079).
  - reflexivity.
  - lia.
Defined.

(** ** Touch *)

Lemma keepThreeAnd_length (img : FloatingImage) (prev : list FloatingImage) :
  List.length (keepThreeAnd img prev)
  = S (Nat.min 3 (List.length prev)).
Proof.
  unfold keepThreeAnd. rewrite length_app, sliceLast_length. cbn. lia.
Qed.

(** C4. With a non-empty [images], in every state the component reaches
    and at every timestamp (the throttle counter is not read), a
    touch-move turns the list [prev] it finds into
    [prev.slice(-3)] followed by exactly one new image, whose id is
    [touch-<now>]; and after a sequence of touch-move events only, the list
    has at most 4 entries. *)
Theorem touch_appends_one_and_keeps_four
  (rnd : nat -> Q) (p : BannerProps) :
  images p <> [] ->
  (forall evs now e,
      let s := run rnd p (mount p) evs in
      let prev := floatingImages (advance now s) in
      exists img,
        id img = touchId now /\
        floatingImages (deliver rnd p s (TouchMove now e))
        = sliceLast 3 prev ++ [img] /\
        List.length (floatingImages (deliver rnd p s (TouchMove now e)))
        = S (Nat.min 3 (List.length prev)))
  /\
  (forall evs,
      Forall (fun ev => isTouchMove ev = true) evs ->
      (List.length (floatingImages (run rnd p (mount p) evs)) <= 4)%nat).
Proof.
  intros Hne. split.
  - intros evs now e s prev.
    assert (Hc : containerRef (advance now s) = true).
    { rewrite advance_containerRef. now apply reachable_containerRef. }
    exists (fst (newImage rnd (images p) (touchId now) (localX e) (localY e)
                   (advance now s))).
    split; [apply newImage_id |].
    unfold deliver. rewrite handle_attached by exact Hne.
    cbn [handlerOf timeOf]. rewrite onTouch_mounted by exact Hc.
    cbn [floatingImages]. split; [reflexivity |].
    apply keepThreeAnd_length.
  - intros evs Hevs.
    apply (run_invariant rnd p
             (fun s => (List.length (floatingImages s) <= 4)%nat)
             (fun ev => isTouchMove ev = true)).
    + intros s t _ _ H _ _. pose proof (fire_shrinks t s). lia.
    + intros s ev Hev H _.
      destruct ev as [now e | now | now e | now]; try discriminate.
      cbn [handlerOf]. destruct (containerRef s) eqn:Ec.
      * rewrite onTouch_mounted by exact Ec. cbn [floatingImages].
        rewrite keepThreeAnd_length. lia.
      * rewrite onTouch_unmounted by exact Ec. exact H.
    + exact Hevs.
    + cbn. lia.
Qed.

Lemma touch_appends_one_and_keeps_four_witness :
  (List.length
     (floatingImages
        (run Sample.draws Sample.props (mount Sample.props)
           [TouchMove 1000 Sample.at_100_200;
            TouchMove 1000 Sample.at_100_200;
            TouchMove 1001 Sample.at_100_200;
            TouchMove 1002 Sample.at_100_200;
            TouchMove 1003 Sample.at_100_200])) <= 4)%nat.
Proof.
  apply (touch_appends_one_and_keeps_four Sample.draws Sample.props).
  - discriminate.
  - repeat constructor.
Defined.

(** ** The bounds of the trail *)

Lemma appendAndTrim_le_12 (img : FloatingImage) (prev : list FloatingImage) :
  (List.length (appendAndTrim img prev) <= 12)%nat.
Proof.
  apply sliceLast_le.
Qed.

Lemma fold_appendAndTrim_le_12 (news l : list FloatingImage) :
  (List.length l <= 12)%nat ->
  (List.length (fold_left (fun l img => appendAndTrim img l) news l)
   <= 12)%nat.
Proof.
  revert l. induction news as [| n news IH]; intros l H; cbn; auto.
  apply IH. apply appendAndTrim_le_12.
Qed.

Section Bounds.

Variable rnd : nat -> Q.
Variable props : BannerProps.

Lemma handler_le_12 (ev : Event) (s : State) :
  (List.length (floatingImages s) <= 12)%nat ->
  (List.length (floatingImages (exec (handlerOf rnd props ev) s))
   <= 12)%nat.
Proof.
  intros H. destruct ev as [now e | now | now e | now]; cbn [handlerOf].
  - destruct (accepts s now) eqn:Ea.
    + destruct (onMouseMove_accepted rnd (images props) now e s Ea)
        as [news [_ [rp ->]]].
      cbn [floatingImages]. now apply fold_appendAndTrim_le_12.
    + rewrite onMouseMove_rejected by exact Ea.
      destruct (containerRef s); exact H.
  - rewrite onMouseLeave_state. exact H.
  - destruct (containerRef s) eqn:Ec.
    + rewrite onTouch_mounted by exact Ec. cbn [floatingImages].
      rewrite keepThreeAnd_length. lia.
    + rewrite onTouch_unmounted by exact Ec. exact H.
  - exact H.
Qed.

(** After every handler: the retirement timer of the last accepted burst
    is pending, or the list is already short. *)
Lemma handler_retirement (ev : Event) (s : State) :
  RetirementPending s \/ (List.length (floatingImages s) <= 6)%nat ->
  RetirementPending (exec (handlerOf rnd props ev) s) \/
  (List.length (floatingImages (exec (handlerOf rnd props ev) s)) <= 6)%nat.
Proof.
  intros H. destruct ev as [now e | now | now e | now]; cbn [handlerOf].
  - destruct (accepts s now) eqn:Ea.
    + destruct (onMouseMove_accepted rnd (images props) now e s Ea)
        as [news [_ [rp ->]]].
      left. exists (mkTimer (nextHandle s) (now + 500) TrimToSix).
      cbn [timers imageCounter callback due]. split; [| split]; auto.
      apply in_or_app. right. now left.
    + rewrite onMouseMove_rejected by exact Ea.
      destruct (containerRef s); exact H.
  - rewrite onMouseLeave_state. destruct H as [[t [Hin [Hcb Hdue]]] | H].
    + left. exists t. cbn [timers imageCounter]. split; [| split]; auto.
      apply in_or_app. now left.
    + right. exact H.
  - destruct (containerRef s) eqn:Ec.
    + rewrite onTouch_mounted by exact Ec. right. cbn [floatingImages].
      rewrite keepThreeAnd_length. lia.
    + rewrite onTouch_unmounted by exact Ec. exact H.
  - exact H.
Qed.

Lemma advance_le_6 (now : Z) (s : State) :
  (List.length (floatingImages s) <= 6)%nat ->
  (List.length (floatingImages (advance now s)) <= 6)%nat.
Proof.
  intros H.
  apply (advance_invariant
           (fun s' => (List.length (floatingImages s') <= 6)%nat)); auto.
  intros s0 t _ _ _. apply fire_le_6.
Qed.

(** Once the deadline of a pending retirement has passed, the list is
    short. *)
Lemma advance_retires (now : Z) (s : State) :
  RetirementPending s \/ (List.length (floatingImages s) <= 6)%nat ->
  imageCounter s + 500 <= now ->
  (List.length (floatingImages (advance now s)) <= 6)%nat.
Proof.
  intros [[t [Hin [_ Hdue]]] | H] Hnow.
  - destruct (advance_fires now s t Hin) as [u [fuel [_ ->]]]; [lia |].
    apply (advanceFuel_invariant
             (fun s' => (List.length (floatingImages s') <= 6)%nat)).
    + intros s0 t0 _ _ _. apply fire_le_6.
    + apply fire_le_6.
  - now apply advance_le_6.
Qed.

End Bounds.

(** C1. Every insertion of a spawned image leaves at most 12 entries, and
    in every state the component reaches (whatever the events, pointer
    moves included) the list has at most 12 entries.  An accepted
    pointer-move at [now] leaves a retirement timer pending with deadline
    [now + 500]; when a retirement timer fires the list has at most 6
    entries; and once the clock has reached 500ms after the last accepted
    spawn, with nothing but the passing of time afterwards, the list has at
    most 6 entries. *)
Theorem trail_is_bounded
  (rnd : nat -> Q) (p : BannerProps) (evs : list Event) :
  let s := run rnd p (mount p) evs in
  (forall img prev, (List.length (appendAndTrim img prev) <= 12)%nat)
  /\
  (List.length (floatingImages s) <= 12)%nat
  /\
  (forall now e,
      accepts (advance now s) now = true ->
      let s' := deliver rnd p s (MouseMove now e) in
      (List.length (floatingImages s') <= 12)%nat /\
      imageCounter s' = now /\
      exists h, In (mkTimer h (now + 500) TrimToSix) (timers s'))
  /\
  (forall t s0,
      callback t = TrimToSix ->
      (List.length (floatingImages (fire t s0)) <= 6)%nat)
  /\
  (forall T idles,
      imageCounter s + 500 <= T ->
      Forall (fun ev => isIdle ev = true) idles ->
      (List.length (floatingImages (run rnd p s (Idle T :: idles)))
       <= 6)%nat).
Proof.
  intros s.
  assert (H12 : (List.length (floatingImages s) <= 12)%nat).
  { apply (run_invariant rnd p
             (fun s => (List.length (floatingImages s) <= 12)%nat)
             (fun _ => True)).
    - intros s0 t _ _ H _ _. pose proof (fire_shrinks t s0). lia.
    - intros s0 ev _ H _. now apply handler_le_12.
    - apply Forall_forall. auto.
    - cbn. lia. }
  assert (HJ : RetirementPending s
               \/ (List.length (floatingImages s) <= 6)%nat).
  { apply (run_invariant rnd p
             (fun s => RetirementPending s
                       \/ (List.length (floatingImages s) <= 6)%nat)
             (fun _ => True)).
    - intros s0 t _ _ _ _ _. right. apply fire_le_6.
    - intros s0 ev _ H _. now apply handler_retirement.
    - apply Forall_forall. auto.
    - right. cbn. lia. }
  split; [apply appendAndTrim_le_12 |].
  split; [exact H12 |].
  split; [| split].
  - intros now e Ha s'.
    assert (Hne : images p <> []).
    { intros E. unfold accepts in Ha. apply andb_prop in Ha.
      destruct Ha as [Hc _]. unfold s in Hc.
      rewrite advance_containerRef, run_containerRef in Hc.
      unfold mount in Hc. rewrite (render_empty p _ E) in Hc.
      discriminate. }
    unfold s', deliver. rewrite handle_attached by exact Hne.
    cbn [handlerOf timeOf].
    destruct (onMouseMove_accepted rnd (images p) now e _ Ha)
      as [news [_ [rp ->]]].
    cbn [floatingImages imageCounter timers]. split; [| split].
    + apply fold_appendAndTrim_le_12.
      apply (advance_invariant
               (fun s' => (List.length (floatingImages s') <= 12)%nat));
        auto.
      intros s0 t H _ _. pose proof (fire_shrinks t s0). lia.
    + reflexivity.
    + eexists. apply in_or_app. right. left. reflexivity.
  - intros t s0 _. apply fire_le_6.
  - intros T idles HT Hidle.
    change (run rnd p s (Idle T :: idles))
      with (run rnd p (advance T s) idles).
    apply (run_invariant rnd p
             (fun s => (List.length (floatingImages s) <= 6)%nat)
             (fun ev => isIdle ev = true)).
    + intros s0 t _ _ _ _ _. apply fire_le_6.
    + intros s0 ev Hev H _.
      destruct ev; try discriminate. exact H.
    + exact Hidle.
    + now apply advance_retires.
Qed.

Lemma trail_is_bounded_witness :
  (List.length
     (floatingImages
        (run Sample.draws Sample.props
           (run Sample.draws Sample.props (mount Sample.props)
              [MouseMove 1000 Sample.at_100_200;
               MouseMove 1080 Sample.at_100_200;
               MouseMove 1160 Sample.at_100_200;
               MouseMove 1240 Sample.at_100_200;
               MouseMove 1320 Sample.at_100_200;
               MouseMove 1400 Sample.at_100_200;
               MouseMove 1480 Sample.at_100_200;
               MouseMove 1560 Sample.at_100_200])
           [Idle 2060; Idle 3000])) <= 6)%nat.
Proof.
  apply (trail_is_bounded Sample.draws Sample.props).
  - vm_compute. discriminate.
  - repeat constructor.
Defined.

(** ** Handles and the clear on pointer-leave *)

Lemma same_handle_same_timer (l : list Timer) (t u : Timer) :
  NoDup (map handle l) -> In t l -> In u l -> handle t = handle u -> t = u.
Proof.
  induction l as [| a l IH]; intros Hnd Ht Hu Heq; [destruct Ht |].
  cbn in Hnd. inversion Hnd as [| ? ? Hnot Hnd']; subst.
  destruct Ht as [-> | Ht], Hu as [-> | Hu]; auto.
  - exfalso. apply Hnot. rewrite Heq. now apply in_map.
  - exfalso. apply Hnot. rewrite <- Heq. now apply in_map.
Qed.

Lemma NoDup_handles_snoc (l : list Timer) (t : Timer) :
  NoDup (map handle l) ->
  (forall u, In u l -> handle u <> handle t) ->
  NoDup (map handle (l ++ [t])).
Proof.
  intros Hnd Hfresh. rewrite map_app. cbn [map].
  apply NoDup_app; [exact Hnd | repeat constructor; intros [] |].
  intros h Hin [<- | []]. apply in_map_iff in Hin.
  destruct Hin as [u [Hu Hin]]. now apply (Hfresh u).
Qed.

Lemma afterClear_In (s : State) (t : Timer) :
  In t (afterClear s) -> In t (timers s).
Proof.
  unfold afterClear. destruct (cleanupTimer s); auto.
  intros H. apply dropTimer_In in H. tauto.
Qed.

Lemma afterClear_NoDup (s : State) :
  NoDup (map handle (timers s)) -> NoDup (map handle (afterClear s)).
Proof.
  unfold afterClear. destruct (cleanupTimer s); auto.
  apply dropTimer_NoDup.
Qed.

Lemma TimersOk_fire (t : Timer) (s : State) :
  TimersOk s -> TimersOk (fire t s).
Proof.
  intros [Hnd [Hlt [Hc Hk]]]. unfold TimersOk.
  destruct (fire_refs t s) as [_ [_ [Ect Enh]]].
  rewrite fire_timers, Ect, Enh. repeat split.
  - now apply dropTimer_NoDup.
  - intros u Hu. apply dropTimer_In in Hu. apply Hlt. tauto.
  - exact Hc.
  - intros u Hu. apply dropTimer_In in Hu. apply Hk. tauto.
Qed.

Section Leave.

Variable rnd : nat -> Q.
Variable props : BannerProps.

Lemma TimersOk_handler (ev : Event) (s : State) :
  TimersOk s -> TimersOk (exec (handlerOf rnd props ev) s).
Proof.
  intros [Hnd [Hlt [Hc Hk]]].
  destruct ev as [now e | now | now e | now]; cbn [handlerOf].
  - destruct (accepts s now) eqn:Ea.
    + destruct (onMouseMove_accepted rnd (images props) now e s Ea)
        as [news [_ [rp ->]]].
      unfold TimersOk. cbn [timers nextHandle cleanupTimer].
      repeat split.
      * apply NoDup_handles_snoc; [now apply afterClear_NoDup |].
        intros u Hu. apply afterClear_In in Hu. apply Hlt in Hu.
        cbn [handle]. lia.
      * intros u Hu. apply in_app_or in Hu. destruct Hu as [Hu | [<- | []]].
        -- apply afterClear_In in Hu. apply Hlt in Hu. lia.
        -- cbn [handle]. lia.
      * intros c [= <-]. lia.
      * intros u Hu [= Hh]. apply in_app_or in Hu.
        destruct Hu as [Hu | [<- | []]]; [| reflexivity].
        apply afterClear_In in Hu. apply Hlt in Hu. lia.
    + rewrite onMouseMove_rejected by exact Ea.
      destruct (containerRef s); repeat split; auto.
  - rewrite onMouseLeave_state. unfold TimersOk.
    cbn [timers nextHandle cleanupTimer]. repeat split.
    + apply NoDup_handles_snoc; [exact Hnd |].
      intros u Hu. apply Hlt in Hu. cbn [handle]. lia.
    + intros u Hu. apply in_app_or in Hu. destruct Hu as [Hu | [<- | []]].
      * apply Hlt in Hu. lia.
      * cbn [handle]. lia.
    + intros c Ec. apply Hc in Ec. lia.
    + intros u Hu Ec. apply in_app_or in Hu.
      destruct Hu as [Hu | [<- | []]]; [now apply Hk |].
      apply Hc in Ec. cbn [handle] in Ec. lia.
  - destruct (containerRef s) eqn:Ec.
    + rewrite onTouch_mounted by exact Ec. repeat split; auto.
    + rewrite onTouch_unmounted by exact Ec. repeat split; auto.
  - repeat split; auto.
Qed.

Lemma TimersOk_run (evs : list Event) :
  TimersOk (run rnd props (mount props) evs).
Proof.
  apply (run_invariant rnd props TimersOk (fun _ => True)).
  - intros s t _ _ H _ _. now apply TimersOk_fire.
  - intros s ev _ H _. now apply TimersOk_handler.
  - apply Forall_forall. auto.
  - unfold TimersOk, mount.
    cbn [timers cleanupTimer nextHandle initialState map].
    split; [constructor |]. split; [intros t [] |].
    split; [discriminate | intros t []].
Qed.

(** No handler cancels a pending clear. *)
Lemma handler_keeps_clear (ev : Event) (s : State) (t : Timer) :
  TimersOk s -> In t (timers s) -> callback t = ClearAll ->
  In t (timers (exec (handlerOf rnd props ev) s)).
Proof.
  intros [Hnd [Hlt [Hc Hk]]] Hin Hcb.
  destruct ev as [now e | now | now e | now]; cbn [handlerOf].
  - destruct (accepts s now) eqn:Ea.
    + destruct (onMouseMove_accepted rnd (images props) now e s Ea)
        as [news [_ [rp ->]]].
      cbn [timers]. apply in_or_app. left. unfold afterClear.
      destruct (cleanupTimer s) as [c |] eqn:Ect; [| exact Hin].
      apply dropTimer_In. split; [exact Hin |]. intros Eh.
      assert (Hx : callback t = TrimToSix) by (apply Hk; congruence).
      congruence.
    + rewrite onMouseMove_rejected by exact Ea.
      destruct (containerRef s); exact Hin.
  - rewrite onMouseLeave_state. cbn [timers]. apply in_or_app. now left.
  - destruct (containerRef s) eqn:Ec.
    + rewrite onTouch_mounted by exact Ec. exact Hin.
    + rewrite onTouch_unmounted by exact Ec. exact Hin.
  - exact Hin.
Qed.

(** A pending clear whose deadline has passed has emptied the list. *)
Lemma advance_clears (now : Z) (s : State) (t : Timer) :
  NoDup (map handle (timers s)) ->
  In t (timers s) -> callback t = ClearAll -> due t <= now ->
  floatingImages (advance now s) = [].
Proof.
  intros Hnd Hin Hcb Hdue.
  assert (H : NoDup (map handle (timers (advance now s))) /\
              (In t (timers (advance now s))
               \/ floatingImages (advance now s) = [])).
  { apply (advance_invariant
             (fun s' => NoDup (map handle (timers s')) /\
                        (In t (timers s') \/ floatingImages s' = []))).
    - intros s0 u [Hnd0 H0] Hu _. rewrite fire_timers, fire_floatingImages.
      split; [now apply dropTimer_NoDup |].
      destruct H0 as [H0 | H0].
      + destruct (Nat.eq_dec (handle t) (handle u)) as [Eh | Eh].
        * right.
          rewrite <- (same_handle_same_timer _ t u Hnd0 H0 Hu Eh), Hcb.
          reflexivity.
        * left. apply dropTimer_In. auto.
      + right. rewrite H0. destruct (callback u); reflexivity.
    - auto. }
  destruct H as [_ [H | H]]; [| exact H].
  apply advance_settled in H. lia.
Qed.

Lemma deliver_timersOk (s : State) (ev : Event) :
  TimersOk s -> TimersOk (deliver rnd props s ev).
Proof.
  intros H.
  apply (deliver_invariant rnd props TimersOk (fun _ => True)); auto.
  - intros s0 t _ _ H0 _ _. now apply TimersOk_fire.
  - intros s0 ev0 _ H0 _. now apply TimersOk_handler.
Qed.

End Leave.

(** C5. With a non-empty [images], a pointer-leave at [now] in any state
    the component reached leaves a clear of the whole list pending with
    deadline [now + 200].  No handler, in any later state, removes a pending
    clear from the timer table.  Whatever events arrive before
    [now + 200], the clear is still pending after them, and when the clock
    reaches [now + 200] the floating-image list is empty. *)
Theorem leave_clears_after_200ms
  (rnd : nat -> Q) (p : BannerProps) (evs0 : list Event) (now : Z) :
  images p <> [] ->
  let s1 := run rnd p (mount p) (evs0 ++ [MouseLeave now]) in
  (exists h, In (mkTimer h (now + 200) ClearAll) (timers s1))
  /\
  (forall evs ev t,
      let s := run rnd p s1 evs in
      In t (timers s) -> callback t = ClearAll ->
      In t (timers (handle_ rnd p ev s)))
  /\
  (forall evs1,
      Forall (fun ev => timeOf ev < now + 200) evs1 ->
      (exists h,
          In (mkTimer h (now + 200) ClearAll)
            (timers (run rnd p s1 evs1)))
      /\
      floatingImages (run rnd p s1 (evs1 ++ [Idle (now + 200)])) = []).
Proof.
  intros Hne s1.
  assert (Hok1 : TimersOk s1) by apply TimersOk_run.
  assert (Hpend : exists h, In (mkTimer h (now + 200) ClearAll) (timers s1)).
  { unfold s1. rewrite run_app. cbn [run fold_left]. unfold deliver.
    rewrite handle_attached by exact Hne. cbn [handlerOf timeOf].
    rewrite onMouseLeave_state. cbn [timers].
    eexists. apply in_or_app. right. left. reflexivity. }
  split; [exact Hpend |]. split.
  - intros evs ev t s Hin Hcb.
    rewrite handle_attached by exact Hne.
    apply handler_keeps_clear; auto.
    unfold s, s1. rewrite <- run_app. apply TimersOk_run.
  - intros evs1 Hevs1. destruct Hpend as [h Hh].
    set (t0 := mkTimer h (now + 200) ClearAll) in *.
    assert (Hinv : TimersOk (run rnd p s1 evs1)
                   /\ In t0 (timers (run rnd p s1 evs1))).
    { apply (run_invariant rnd p
               (fun s => TimersOk s /\ In t0 (timers s))
               (fun ev => timeOf ev < now + 200)).
      - intros s u ev Hev [Hok Hin] Hu Hdue.
        split; [now apply TimersOk_fire |].
        rewrite fire_timers. apply dropTimer_In. split; [exact Hin |].
        intros Eh. destruct Hok as [Hnd _].
        pose proof (same_handle_same_timer _ t0 u Hnd Hin Hu Eh) as <-.
        cbn [due t0] in Hdue. lia.
      - intros s ev _ [Hok Hin] _.
        split; [now apply TimersOk_handler |].
        now apply handler_keeps_clear.
      - exact Hevs1.
      - auto. }
    destruct Hinv as [[Hnd _] Hin]. split; [now exists h |].
    rewrite run_app. cbn [run fold_left]. unfold deliver.
    cbn [handle_ listenerOf timeOf].
    apply (advance_clears _ _ t0); auto. cbn. lia.
Qed.

Lemma leave_clears_after_200ms_witness :
  floatingImages
    (run Sample.draws Sample.props
       (run Sample.draws Sample.props (mount Sample.props)
          ([MouseMove 1000 Sample.at_100_200] ++ [MouseLeave 1050]))
       ([TouchMove 1100 Sample.at_100_200;
         MouseMove 1200 Sample.at_100_200]
        ++ [Idle (1050 + 200)])) = [].
Proof.
  apply (leave_clears_after_200ms Sample.draws Sample.props
           [MouseMove 1000 Sample.at_100_200] 1050).
  - discriminate.
  - repeat constructor.
Defined.

(** ** Ids as React keys *)

(** C8. Ids are not always unique among live entries: two touch-move
    events that read the same [Date.now()] (here 1000) leave two live images
    that both carry the id [touch-1000], which the render then uses twice
    as a key. *)
Theorem touch_ids_collide_within_a_millisecond :
  let s :=
    run Sample.draws Sample.props (mount Sample.props)
      [TouchMove 1000 Sample.at_100_200; TouchMove 1000 Sample.at_100_200] in
  liveIds s = ["touch-1000"; "touch-1000"] /\
  ~ NoDup (liveIds s) /\
  option_map (fun c => map key (floating c)) (render Sample.props s)
  = Some ["touch-1000"; "touch-1000"].
Proof.
  cbv zeta.
  assert (E : liveIds
                (run Sample.draws Sample.props (mount Sample.props)
                   [TouchMove 1000 Sample.at_100_200;
                    TouchMove 1000 Sample.at_100_200])
              = ["touch-1000"; "touch-1000"]) by (vm_compute; reflexivity).
  split; [exact E |]. split.
  - rewrite E. intros H. inversion H as [| ? ? Hnot _]; subst.
    apply Hnot. now left.
  - vm_compute. reflexivity.
Qed.

(** The pointer path, by contrast, never repeats an id: the throttle keeps
    the timestamps of two bursts apart and the loop index tells the images
    of one burst apart. *)

Lemma string_length_append (s u : string) :
  String.length (s ++ u) = (String.length s + String.length u)%nat.
Proof.
  induction s as [| c s IH]; cbn; [reflexivity | now rewrite IH].
Qed.

Lemma string_append_split (s s' u u' : string) :
  String.length u = String.length u' ->
  (s ++ u = s' ++ u')%string -> s = s' /\ u = u'.
Proof.
  intros Hlen. revert s'. induction s as [| c s IH]; intros [| c' s'] H.
  - auto.
  - cbn in H. rewrite H in Hlen. cbn in Hlen.
    rewrite string_length_append in Hlen. lia.
  - cbn in H. rewrite <- H in Hlen. cbn in Hlen.
    rewrite string_length_append in Hlen. lia.
  - cbn in H. injection H as <- H. destruct (IH s' H) as [<- <-]. auto.
Qed.

Lemma stringOfZ_inj (a b : Z) : stringOfZ a = stringOfZ b -> a = b.
Proof.
  unfold stringOfZ. intros H. apply DecimalZ.to_int_inj.
  assert (Hn : forall z,
             Z.to_int z <> Decimal.Pos Decimal.Nil
             /\ Z.to_int z <> Decimal.Neg Decimal.Nil).
  { intros [| q | q]; cbn; split; try discriminate;
      intros [= E]; now apply DecimalPos.Unsigned.to_uint_nonnil in E. }
  apply (f_equal NilZero.int_of_string) in H.
  destruct (Hn a), (Hn b). rewrite !NilZero.isi in H by assumption.
  now injection H.
Qed.

Lemma mouseId_inj (t u : Z) (i j : nat) :
  (i < 2)%nat -> (j < 2)%nat -> mouseId t i = mouseId u j ->
  t = u /\ i = j.
Proof.
  intros Hi Hj. unfold mouseId. cbn [String.append]. intros [= H].
  apply string_append_split in H.
  - destruct H as [Ht Hs]. apply stringOfZ_inj in Ht.
    injection Hs as Hs. apply stringOfZ_inj in Hs. split; [exact Ht | lia].
  - destruct i as [| [| i]], j as [| [| j]]; try lia; reflexivity.
Qed.

Lemma sliceLast_NoDup {A : Type} (n : nat) (l : list A) :
  NoDup l -> NoDup (sliceLast n l).
Proof.
  unfold sliceLast. intros H.
  rewrite <- (firstn_skipn (List.length l - n) l) in H.
  now apply NoDup_app_remove_l in H.
Qed.

Lemma sliceLast_map {A B : Type} (f : A -> B) (n : nat) (l : list A) :
  map f (sliceLast n l) = sliceLast n (map f l).
Proof.
  unfold sliceLast. now rewrite skipn_map, length_map.
Qed.

Lemma appendAndTrim_ids (img : FloatingImage) (l : list FloatingImage) :
  map id (appendAndTrim img l) = sliceLast 12 (map id l ++ [id img]).
Proof.
  unfold appendAndTrim. now rewrite sliceLast_map, map_app.
Qed.

Lemma push_id_NoDup (ids : list string) (new : string) :
  NoDup ids -> ~ In new ids -> NoDup (sliceLast 12 (ids ++ [new])).
Proof.
  intros Hnd Hnew. apply sliceLast_NoDup. apply NoDup_app; auto.
  - repeat constructor. intros [].
  - intros a Ha [<- | []]. contradiction.
Qed.

Lemma push_id_In (ids : list string) (new a : string) :
  In a (sliceLast 12 (ids ++ [new])) -> In a ids \/ a = new.
Proof.
  intros H. apply sliceLast_In, in_app_or in H.
  destruct H as [H | [<- | []]]; auto.
Qed.

Section PointerIds.

Variable rnd : nat -> Q.
Variable props : BannerProps.

Lemma stamped_push (now : Z) (i : nat) (ids : list string) :
  Stamped now ids ->
  (i < 2)%nat ->
  (forall a, In a ids ->
             exists t j, a = mouseId t j
                         /\ (t < now \/ (t = now /\ (j < i)%nat))
                         /\ (j < 2)%nat) ->
  Stamped now (sliceLast 12 (ids ++ [mouseId now i])).
Proof.
  intros [Hnd Hst] Hi Hold. split.
  - apply push_id_NoDup; auto. intros Hin.
    destruct (Hold _ Hin) as [t [j [E [Ht Hj]]]].
    apply mouseId_inj in E; auto. lia.
  - intros a Ha. apply push_id_In in Ha. destruct Ha as [Ha | ->]; auto.
    exists now, i. repeat split; auto. lia.
Qed.

Lemma handler_stamped (ev : Event) (s : State) :
  isTouchMove ev = false ->
  Stamped (imageCounter s) (liveIds s) ->
  Stamped (imageCounter (exec (handlerOf rnd props ev) s))
    (liveIds (exec (handlerOf rnd props ev) s)).
Proof.
  intros Hev H.
  destruct ev as [now e | now | now e | now]; cbn [handlerOf];
    try discriminate.
  - destruct (accepts s now) eqn:Ea.
    + destruct (onMouseMove_accepted rnd (images props) now e s Ea)
        as [news [Hnews [rp ->]]].
      unfold accepts in Ea. apply andb_prop in Ea. destruct Ea as [_ Ea].
      apply negb_true_iff, Z.ltb_ge in Ea.
      unfold liveIds. cbn [floatingImages imageCounter].
      destruct H as [Hnd Hst].
      assert (Hold : forall a,
                 In a (map id (floatingImages s)) ->
                 exists t j, a = mouseId t j
                             /\ (t < now \/ (t = now /\ (j < 0)%nat))
                             /\ (j < 2)%nat).
      { intros a Ha. destruct (Hst a Ha) as [t [j [E [Ht Hj]]]].
        exists t, j. repeat split; auto. left. lia. }
      assert (H0 : forall s0,
                 Stamped now
                   (map id
                      (appendAndTrim
                         (fst (newImage rnd (images props) (mouseId now 0)
                                 (localX e) (localY e) s0))
                         (floatingImages s)))).
      { intros s0. rewrite appendAndTrim_ids, newImage_id.
        apply stamped_push; auto.
        split; auto. intros a Ha. destruct (Hst a Ha) as [t [j [E [Ht Hj]]]].
        exists t, j. repeat split; auto. lia. }
      destruct Hnews as [[s0 ->] | [s0 [s1 ->]]]; cbn [fold_left].
      * apply H0.
      * rewrite appendAndTrim_ids, newImage_id.
        apply stamped_push; auto.
        intros a Ha. rewrite appendAndTrim_ids, newImage_id in Ha.
        apply push_id_In in Ha. destruct Ha as [Ha | ->].
        -- destruct (Hold a Ha) as [t [j [E [Ht Hj]]]].
           exists t, j. repeat split; auto. lia.
        -- exists now, 0%nat.
           split; [reflexivity | split; [right; lia | lia]].
    + rewrite onMouseMove_rejected by exact Ea.
      destruct (containerRef s); exact H.
  - rewrite onMouseLeave_state. exact H.
  - exact H.
Qed.

(** X11. In a run with no touch-move, the ids of the live images are
    pairwise distinct: two bursts differ in their timestamp, which the
    throttle keeps at least 80 apart, and the images of one burst differ in
    their index. *)
Lemma pointer_ids_are_unique (evs : list Event) :
  Forall (fun ev => isTouchMove ev = false) evs ->
  NoDup (liveIds (run rnd props (mount props) evs)).
Proof.
  intros Hevs.
  apply (run_invariant rnd props
           (fun s => Stamped (imageCounter s) (liveIds s))
           (fun ev => isTouchMove ev = false)).
  - intros s t _ _ [Hnd Hst] _ _. destruct (fire_refs t s) as [_ [-> _]].
    unfold liveIds. rewrite fire_floatingImages.
    destruct (callback t); cbn [map].
    + unfold trimToSix. rewrite sliceLast_map. split.
      * now apply sliceLast_NoDup.
      * intros a Ha. apply sliceLast_In in Ha. now apply Hst.
    + split; [constructor | intros a []].
  - intros s ev Hev H _. now apply handler_stamped.
  - exact Hevs.
  - split; [constructor | intros a []].
Qed.

End PointerIds.

Lemma pointer_ids_are_unique_witness :
  NoDup
    (liveIds
       (run Sample.draws Sample.props (mount Sample.props)
          [MouseMove 1000 Sample.at_100_200;
           MouseMove 1080 Sample.at_100_200; MouseLeave 1100;
           MouseMove 1160 Sample.at_100_200])).
Proof.
  apply (pointer_ids_are_unique Sample.draws Sample.props).
  repeat constructor.
Defined.

(** The touch path has neither: any two touch-moves that read the same
    clock value collide, whatever came before. *)

Lemma nextDue_nothing (now : Z) (l : list Timer) :
  (forall t, In t l -> now < due t) -> nextDue now l = None.
Proof.
  induction l as [| a l IH]; intros H; cbn [nextDue]; [reflexivity |].
  destruct (due a <=? now) eqn:Ea.
  - apply Z.leb_le in Ea. specialize (H a (or_introl eq_refl)). lia.
  - apply IH. intros t Ht. apply H. now right.
Qed.

Lemma advance_idle (now : Z) (s : State) :
  (forall t, In t (timers s) -> now < due t) -> advance now s = s.
Proof.
  intros H. unfold advance. destruct (List.length (timers s)); cbn.
  - reflexivity.
  - now rewrite nextDue_nothing.
Qed.

(** X12. With a non-empty [images], two touch-moves in a row that read
    the same clock value leave two live images with the same id, whatever
    happened before: after them the ids of the live images are not pairwise
    distinct. *)
Lemma touch_ids_collide
  (rnd : nat -> Q) (p : BannerProps) (evs : list Event) (now : Z)
  (e1 e2 : Pointer) :
  images p <> [] ->
  ~ NoDup
      (liveIds
         (run rnd p (mount p) (evs ++ [TouchMove now e1; TouchMove now e2]))).
Proof.
  intros Hne. rewrite run_app.
  set (s := run rnd p (mount p) evs). cbn [run fold_left].
  assert (Hc : containerRef (advance now s) = true).
  { rewrite advance_containerRef. now apply reachable_containerRef. }
  assert (E1 : deliver rnd p s (TouchMove now e1)
               = exec (onTouch rnd (images p) now e1) (advance now s)).
  { unfold deliver. now rewrite handle_attached. }
  rewrite onTouch_mounted in E1 by exact Hc.
  set (s1 := deliver rnd p s (TouchMove now e1)) in *.
  assert (Ha : advance now s1 = s1).
  { apply advance_idle. intros t Ht. rewrite E1 in Ht. cbn [timers] in Ht.
    now apply advance_settled in Ht. }
  assert (Hc1 : containerRef s1 = true) by (rewrite E1; exact Hc).
  unfold deliver at 1. rewrite handle_attached by exact Hne.
  cbn [handlerOf timeOf]. rewrite Ha, onTouch_mounted by exact Hc1.
  unfold liveIds. cbn [floatingImages].
  rewrite E1 at 2. cbn [floatingImages]. unfold keepThreeAnd.
  rewrite sliceLast_snoc, <- app_assoc, !map_app. cbn [map app].
  rewrite !newImage_id. intros H.
  apply NoDup_app_remove_l in H. inversion H as [| ? ? Hnot _]; subst.
  apply Hnot. now left.
Qed.

Lemma touch_ids_collide_witness :
  ~ NoDup
      (liveIds
         (run Sample.draws Sample.props (mount Sample.props)
            ([MouseMove 1000 Sample.at_100_200]
             ++ [TouchMove 1010 Sample.at_100_200;
                 TouchMove 1010 (mkPointer (50 # 1) (60 # 1)
                                   (10 # 1) (20 # 1))]))).
Proof.
  apply (touch_ids_collide Sample.draws Sample.props
           [MouseMove 1000 Sample.at_100_200] 1010).
  discriminate.
Defined.

(** ** The retirement timer is a single slot *)

Section Retirement.

Variable rnd : nat -> Q.
Variable props : BannerProps.

Lemma RetirementSlot_handler (ev : Event) (s : State) :
  TimersOk s -> RetirementSlot s ->
  RetirementSlot (exec (handlerOf rnd props ev) s).
Proof.
  intros [Hnd [Hlt [Hc Hk]]] Hslot.
  destruct ev as [now e | now | now e | now]; cbn [handlerOf].
  - destruct (accepts s now) eqn:Ea.
    + destruct (onMouseMove_accepted rnd (images props) now e s Ea)
        as [news [_ [rp ->]]].
      intros t Ht Hcb. cbn [timers cleanupTimer imageCounter] in *.
      apply in_app_or in Ht. destruct Ht as [Ht | [<- | []]].
      * exfalso. unfold afterClear in Ht.
        destruct (cleanupTimer s) as [c |] eqn:Ec.
        -- apply dropTimer_In in Ht. destruct Ht as [Ht Hne].
           destruct (Hslot t Ht Hcb) as [E _]. congruence.
        -- destruct (Hslot t Ht Hcb) as [E _]. congruence.
      * cbn. auto.
    + rewrite onMouseMove_rejected by exact Ea.
      destruct (containerRef s); exact Hslot.
  - rewrite onMouseLeave_state. intros t Ht Hcb.
    cbn [timers cleanupTimer imageCounter] in *.
    apply in_app_or in Ht. destruct Ht as [Ht | [<- | []]].
    + now apply Hslot.
    + discriminate.
  - destruct (containerRef s) eqn:Ec.
    + rewrite onTouch_mounted by exact Ec. exact Hslot.
    + rewrite onTouch_unmounted by exact Ec. exact Hslot.
  - exact Hslot.
Qed.

Lemma RetirementSlot_fire (t : Timer) (s : State) :
  RetirementSlot s -> RetirementSlot (fire t s).
Proof.
  intros Hslot u Hu Hcb. destruct (fire_refs t s) as [_ [Eic [Ect _]]].
  rewrite fire_timers in Hu. apply dropTimer_In in Hu.
  rewrite Eic, Ect. apply Hslot; tauto.
Qed.

Lemma reachable_slot (evs : list Event) :
  TimersOk (run rnd props (mount props) evs) /\
  RetirementSlot (run rnd props (mount props) evs).
Proof.
  apply (run_invariant rnd props
           (fun s => TimersOk s /\ RetirementSlot s) (fun _ => True)).
  - intros s t _ _ [Hok Hslot] _ _.
    split; [now apply TimersOk_fire | now apply RetirementSlot_fire].
  - intros s ev _ [Hok Hslot] _.
    split; [now apply TimersOk_handler | now apply RetirementSlot_handler].
  - apply Forall_forall. auto.
  - split; [apply (TimersOk_run rnd props []) | intros t []].
Qed.

End Retirement.

(** X1. In every state the component reaches, at most one retirement
    timer is pending: two pending retirement timers are the same timer, the
    pending one is the timer whose handle [cleanupTimer.current] holds, and
    its deadline is 500ms after the last accepted pointer burst. *)
Theorem retirement_timer_is_a_single_slot
  (rnd : nat -> Q) (p : BannerProps) (evs : list Event) (t u : Timer) :
  let s := run rnd p (mount p) evs in
  In t (timers s) -> callback t = TrimToSix ->
  In u (timers s) -> callback u = TrimToSix ->
  t = u /\
  cleanupTimer s = Some (handle t) /\
  due t = imageCounter s + 500.
Proof.
  intros s Ht Hct Hu Hcu.
  destruct (reachable_slot rnd p evs) as [[Hnd _] Hslot]. fold s in Hnd, Hslot.
  destruct (Hslot t Ht Hct) as [Et Hdue].
  destruct (Hslot u Hu Hcu) as [Eu _].
  split; [| split; assumption].
  apply (same_handle_same_timer (timers s)); auto. congruence.
Qed.

Lemma retirement_timer_is_a_single_slot_witness :
  let s :=
    run Sample.draws Sample.props (mount Sample.props)
      [MouseMove 1000 Sample.at_100_200; MouseMove 1100 Sample.at_100_200;
       MouseLeave 1200] in
  mkTimer 2 1600 TrimToSix = mkTimer 2 1600 TrimToSix /\
  cleanupTimer s = Some 2%nat /\
  1600 = imageCounter s + 500.
Proof.
  apply (retirement_timer_is_a_single_slot Sample.draws Sample.props
           [MouseMove 1000 Sample.at_100_200;
            MouseMove 1100 Sample.at_100_200; MouseLeave 1200]
           (mkTimer 2 1600 TrimToSix) (mkTimer 2 1600 TrimToSix)).
  - vm_compute. left. reflexivity.
  - reflexivity.
  - vm_compute. left. reflexivity.
  - reflexivity.
Defined.

(** ** Unmounting *)

Lemma onUnmount_state (s : State) :
  exec onUnmount s = putTimers (afterClear s) s.
Proof.
  unfold onUnmount, afterClear. rewrite exec_gets.
  destruct s as [fi mp cr ic ct tm nh rp]. cbn [cleanupTimer timers].
  destruct ct; reflexivity.
Qed.

(** X2. The unmount cleanup, run in any state the component reached,
    cancels the retirement timer: afterwards every pending timer is a
    clear scheduled by a pointer-leave.  Those clears are not cancelled: each
    one pending before is pending after.  The list, the throttle counter and
    [cleanupTimer.current] are left as they were. *)
Theorem unmount_cancels_the_retirement_only
  (rnd : nat -> Q) (p : BannerProps) (evs : list Event) :
  let s := run rnd p (mount p) evs in
  let s' := exec onUnmount s in
  (forall t, In t (timers s') -> callback t = ClearAll) /\
  (forall t, In t (timers s) -> callback t = ClearAll -> In t (timers s')) /\
  floatingImages s' = floatingImages s /\
  imageCounter s' = imageCounter s /\
  cleanupTimer s' = cleanupTimer s.
Proof.
  intros s s'. unfold s'. rewrite onUnmount_state.
  destruct (reachable_slot rnd p evs) as [[Hnd [Hlt [Hc Hk]]] Hslot].
  fold s in Hnd, Hlt, Hc, Hk, Hslot.
  cbn [putTimers timers floatingImages imageCounter cleanupTimer].
  split; [| split; [| auto]].
  - intros t Ht. destruct (callback t) eqn:Hcb; [exfalso | reflexivity].
    unfold afterClear in Ht. destruct (cleanupTimer s) as [c |] eqn:Ec.
    + apply dropTimer_In in Ht. destruct Ht as [Ht Hne].
      destruct (Hslot t Ht Hcb) as [E _]. congruence.
    + destruct (Hslot t Ht Hcb) as [E _]. congruence.
  - intros t Ht Hcb. unfold afterClear.
    destruct (cleanupTimer s) as [c |] eqn:Ec; [| exact Ht].
    apply dropTimer_In. split; [exact Ht |]. intros Eh.
    assert (Hx : callback t = TrimToSix) by (apply Hk; congruence).
    congruence.
Qed.

Lemma unmount_cancels_the_retirement_only_witness :
  In (mkTimer 2 1400 ClearAll)
    (timers
       (exec onUnmount
          (run Sample.draws Sample.props (mount Sample.props)
             [MouseMove 1000 Sample.at_100_200; MouseLeave 1200]))).
Proof.
  apply (unmount_cancels_the_retirement_only Sample.draws Sample.props
           [MouseMove 1000 Sample.at_100_200; MouseLeave 1200]).
  - vm_compute. right. left. reflexivity.
  - reflexivity.
Defined.

(** ** The cursor marker *)

Lemma fire_mousePosition (t : Timer) (s : State) :
  mousePosition (fire t s) = mousePosition s.
Proof.
  unfold fire. destruct (callback t); reflexivity.
Qed.

Lemma advance_mousePosition (now : Z) (s : State) :
  mousePosition (advance now s) = mousePosition s.
Proof.
  apply (advance_invariant (fun s' => mousePosition s' = mousePosition s)).
  - intros s0 t H _ _. now rewrite fire_mousePosition.
  - reflexivity.
Qed.

(** X3. With a non-empty [images], every pointer-move delivered in a
    state the component reached, accepted by the throttle or not, sets the
    stored pointer position to the event's local coordinates, and the render
    puts the cursor marker 2 to the left of and 2 above them.  No other
    event and no timer moves the marker. *)
Theorem cursor_follows_every_pointer_move
  (rnd : nat -> Q) (p : BannerProps) (evs : list Event) :
  images p <> [] ->
  let s := run rnd p (mount p) evs in
  (forall now e,
      let s' := deliver rnd p s (MouseMove now e) in
      mousePosition s' = (localX e, localY e) /\
      option_map (fun c => (cursor_left c, cursor_top c)) (render p s')
      = Some (sub64 (localX e) (2 # 1), sub64 (localY e) (2 # 1)))
  /\
  (forall ev,
      isMouseMove ev = false ->
      mousePosition (deliver rnd p s ev) = mousePosition s).
Proof.
  intros Hne s. split.
  - intros now e s'.
    assert (Hpos : mousePosition s' = (localX e, localY e)).
    { unfold s', deliver. rewrite handle_attached by exact Hne.
      cbn [handlerOf timeOf].
      assert (Hc : containerRef (advance now s) = true).
      { rewrite advance_containerRef. now apply reachable_containerRef. }
      destruct (accepts (advance now s) now) eqn:Ea.
      - destruct (onMouseMove_accepted rnd (images p) now e _ Ea)
          as [news [_ [rp ->]]].
        reflexivity.
      - rewrite onMouseMove_rejected by exact Ea. rewrite Hc. reflexivity. }
    split; [exact Hpos |].
    unfold render. destruct (images p) as [| a l]; [congruence |].
    cbn [List.length Nat.eqb option_map cursor_left cursor_top].
    now rewrite Hpos.
  - intros ev Hev. unfold deliver. rewrite handle_attached by exact Hne.
    rewrite <- (advance_mousePosition (timeOf ev) s).
    destruct ev as [now e | now | now e | now]; cbn [handlerOf timeOf];
      try discriminate.
    + rewrite onMouseLeave_state. reflexivity.
    + destruct (containerRef (advance now s)) eqn:Ec.
      * rewrite onTouch_mounted by exact Ec. reflexivity.
      * rewrite onTouch_unmounted by exact Ec. reflexivity.
    + reflexivity.
Qed.

Lemma cursor_follows_every_pointer_move_witness :
  mousePosition
    (deliver Sample.draws Sample.props
       (run Sample.draws Sample.props (mount Sample.props)
          [MouseMove 1000 Sample.at_100_200])
       (MouseMove 1010 (mkPointer (50 # 1) (60 # 1) (10 # 1) (20 # 1))))
  = (localX (mkPointer (50 # 1) (60 # 1) (10 # 1) (20 # 1)),
     localY (mkPointer (50 # 1) (60 # 1) (10 # 1) (20 # 1))).
Proof.
  apply (cursor_follows_every_pointer_move Sample.draws Sample.props
           [MouseMove 1000 Sample.at_100_200]).
  discriminate.
Defined.

(** ** The shape of a burst *)

Lemma sliceLast_app_trim {A : Type} (n : nat) (l m : list A) :
  sliceLast n (sliceLast n l ++ m) = sliceLast n (l ++ m).
Proof.
  unfold sliceLast. rewrite !length_app, length_skipn.
  destruct (Nat.le_gt_cases (List.length l) n) as [Hle | Hgt].
  - replace (List.length l - n)%nat with 0%nat by lia.
    rewrite Nat.sub_0_r. reflexivity.
  - replace (List.length l - (List.length l - n) + List.length m - n)%nat
      with (List.length m) by lia.
    replace (List.length l + List.length m - n)%nat
      with (List.length m + (List.length l - n))%nat by lia.
    rewrite <- skipn_skipn. f_equal. rewrite skipn_app.
    replace (List.length l - n - List.length l)%nat with 0%nat by lia.
    reflexivity.
Qed.

Lemma fold_appendAndTrim_trim (news l : list FloatingImage) :
  news <> [] ->
  fold_left (fun l img => appendAndTrim img l) news l
  = sliceLast 12 (l ++ news).
Proof.
  revert l. induction news as [| a news IH]; intros l Hne; [congruence |].
  cbn [fold_left]. destruct news as [| b news].
  - reflexivity.
  - rewrite IH by discriminate. unfold appendAndTrim.
    rewrite sliceLast_app_trim, <- app_assoc. reflexivity.
Qed.

Section Burst.

Variable rnd : nat -> Q.
Variable imgs : list string.

(** The list after an accepted pointer-move, by the first draw. *)
Lemma onMouseMove_burst (now : Z) (e : Pointer) (s : State) :
  accepts s now = true ->
  exists img0 img1,
    id img0 = mouseId now 0 /\ id img1 = mouseId now 1 /\
    floatingImages (exec (onMouseMove rnd imgs now e) s)
    = fold_left (fun l img => appendAndTrim img l)
        (if Qgtb (rnd (rngPos s)) (literal (8 # 10))
         then [img0; img1]
         else [img0])
        (floatingImages s).
Proof.
  destruct s as [fi mp cr ic ct tm nh rp]. unfold accepts.
  cbn [containerRef imageCounter floatingImages rngPos].
  destruct cr; [| discriminate].
  destruct (now - ic <? 80) eqn:E; [discriminate |]. intros _.
  pose (s0 := mkState fi (localX e, localY e) true now ct tm nh (S rp)).
  pose (s1 := mkState
                (appendAndTrim
                   (fst (newImage rnd imgs (mouseId now 0)
                           (localX e) (localY e) s0)) fi)
                (localX e, localY e) true now ct tm nh (6 + S rp)).
  exists (fst (newImage rnd imgs (mouseId now 0) (localX e) (localY e) s0)),
         (fst (newImage rnd imgs (mouseId now 1) (localX e) (localY e) s1)).
  split; [apply newImage_id |]. split; [apply newImage_id |].
  unfold onMouseMove, setMousePosition.
  rewrite exec_gets. cbn [containerRef negb]. cbv zeta.
  rewrite exec_seq, exec_modify, exec_gets. state_fields.
  rewrite E, exec_seq, exec_modify, exec_random. state_fields.
  rewrite exec_seq.
  destruct (Qgtb (rnd rp) (literal (8 # 10))) eqn:Eg.
  - cbn [forFrom]. rewrite !exec_seq, exec_ret, !exec_spawnOne.
    state_fields. fold s0. fold s1.
    rewrite exec_gets. state_fields.
    rewrite exec_seq, exec_setTimeout, exec_modify.
    destruct ct; reflexivity.
  - cbn [forFrom]. rewrite !exec_seq, exec_ret, !exec_spawnOne.
    state_fields. fold s0.
    rewrite exec_gets. state_fields.
    rewrite exec_seq, exec_setTimeout, exec_modify.
    destruct ct; reflexivity.
Qed.

End Burst.

(** X4. An accepted pointer-move at [now] appends one image, or two when
    the first [Math.random()] of the handler exceeds the double 0.8; their
    ids are
    [img-<now>-0] and [img-<now>-1] in this order; the list afterwards is
    the last 12 entries of the old list followed by the new images (so the
    newest image is last); and the throttle counter becomes [now]. *)
Theorem burst_is_one_image_or_two
  (rnd : nat -> Q) (p : BannerProps) (evs : list Event) (now : Z)
  (e : Pointer) :
  let s := advance now (run rnd p (mount p) evs) in
  let s' := deliver rnd p (run rnd p (mount p) evs) (MouseMove now e) in
  accepts s now = true ->
  exists news,
    map id news
    = (if Qgtb (rnd (rngPos s)) (literal (8 # 10))
       then [mouseId now 0; mouseId now 1]
       else [mouseId now 0]) /\
    floatingImages s' = sliceLast 12 (floatingImages s ++ news) /\
    imageCounter s' = now.
Proof.
  intros s s' Ha.
  assert (Hne : images p <> []).
  { intros E. unfold accepts in Ha. apply andb_prop in Ha.
    destruct Ha as [Hc _]. unfold s in Hc.
    rewrite advance_containerRef, run_containerRef in Hc.
    unfold mount in Hc. rewrite (render_empty p _ E) in Hc.
    discriminate. }
  assert (Es' : s' = exec (onMouseMove rnd (images p) now e) s).
  { unfold s', deliver. now rewrite handle_attached. }
  destruct (onMouseMove_burst rnd (images p) now e s Ha)
    as [img0 [img1 [E0 [E1 Hfi]]]].
  exists (if Qgtb (rnd (rngPos s)) (literal (8 # 10))
          then [img0; img1]
          else [img0]).
  split; [| split].
  - destruct (Qgtb (rnd (rngPos s)) (literal (8 # 10))); cbn [map]; congruence.
  - rewrite Es', Hfi. apply fold_appendAndTrim_trim.
    destruct (Qgtb (rnd (rngPos s)) (literal (8 # 10))); discriminate.
  - rewrite Es'.
    destruct (onMouseMove_accepted rnd (images p) now e s Ha)
      as [news [_ [rp ->]]].
    reflexivity.
Qed.

Lemma burst_is_one_image_or_two_witness :
  let s := advance 1000 (run Sample.draws Sample.props
                           (mount Sample.props) []) in
  let s' := deliver Sample.draws Sample.props
              (run Sample.draws Sample.props (mount Sample.props) [])
              (MouseMove 1000 Sample.at_100_200) in
  exists news,
    map id news
    = (if Qgtb (Sample.draws (rngPos s)) (literal (8 # 10))
       then [mouseId 1000 0; mouseId 1000 1]
       else [mouseId 1000 0]) /\
    floatingImages s' = sliceLast 12 (floatingImages s ++ news) /\
    imageCounter s' = 1000.
Proof.
  apply (burst_is_one_image_or_two Sample.draws Sample.props []
           1000 Sample.at_100_200).
  reflexivity.
Defined.

(** ** Eviction *)

Lemma sliceLast_suffix {A : Type} (n : nat) (l : list A) :
  exists dropped, l = dropped ++ sliceLast n l.
Proof.
  exists (firstn (List.length l - n) l). unfold sliceLast.
  now rewrite firstn_skipn.
Qed.

Lemma sliceLast_sliceLast {A : Type} (m n : nat) (l : list A) :
  (m <= n)%nat -> sliceLast m (sliceLast n l) = sliceLast m l.
Proof.
  intros Hmn. unfold sliceLast. rewrite length_skipn, skipn_skipn.
  f_equal. lia.
Qed.

Lemma sliceLast_short {A : Type} (n : nat) (l : list A) :
  (List.length l <= n)%nat -> sliceLast n l = l.
Proof.
  intros H. unfold sliceLast.
  replace (List.length l - n)%nat with 0%nat by lia. reflexivity.
Qed.

Lemma advance_suffix (now : Z) (s : State) :
  exists dropped,
    floatingImages s = dropped ++ floatingImages (advance now s).
Proof.
  apply (advance_invariant
           (fun s' => exists dropped,
                floatingImages s = dropped ++ floatingImages s')).
  - intros s0 t [d Hd] _ _. rewrite fire_floatingImages.
    destruct (callback t).
    + destruct (sliceLast_suffix 6 (floatingImages s0)) as [d' Hd'].
      exists (d ++ d'). unfold trimToSix. rewrite <- app_assoc, <- Hd'.
      exact Hd.
    + exists (floatingImages s). now rewrite app_nil_r.
  - exists []. reflexivity.
Qed.

(** X5. Entries leave the list from the front only.  With a non-empty
    [images], whatever event is delivered in a state the component reached,
    the old list followed by the images the event spawns equals some dropped
    prefix followed by the new list.  The event spawns one or two images
    when it is an accepted pointer-move, exactly one when it is a
    touch-move, and none otherwise (a throttled pointer-move, a
    pointer-leave, the passing of time): then the new list is a tail of the
    old one. *)
Theorem eviction_is_oldest_first
  (rnd : nat -> Q) (p : BannerProps) (evs : list Event) (ev : Event) :
  images p <> [] ->
  let s := run rnd p (mount p) evs in
  exists dropped news,
    floatingImages s ++ news
    = dropped ++ floatingImages (deliver rnd p s ev)
    /\
    match ev with
    | MouseMove now _ =>
        if accepts (advance now s) now
        then (1 <= List.length news <= 2)%nat
        else news = []
    | TouchMove _ _ => List.length news = 1%nat
    | _ => news = []
    end.
Proof.
  intros Hne s. unfold deliver. rewrite handle_attached by exact Hne.
  destruct (advance_suffix (timeOf ev) s) as [d Hd].
  assert (Hc : containerRef (advance (timeOf ev) s) = true).
  { rewrite advance_containerRef. now apply reachable_containerRef. }
  destruct ev as [now e | now | now e | now]; cbn [handlerOf timeOf] in *.
  - destruct (accepts (advance now s) now) eqn:Ea.
    + destruct (onMouseMove_accepted rnd (images p) now e _ Ea)
        as [news [Hnews [rp ->]]].
      cbn [floatingImages].
      assert (Hlen : (1 <= List.length news <= 2)%nat).
      { destruct Hnews as [[s0 ->] | [s0 [s1 ->]]]; cbn; lia. }
      rewrite fold_appendAndTrim_trim
        by (intros ->; cbn in Hlen; lia).
      destruct (sliceLast_suffix 12
                  (floatingImages (advance now s) ++ news)) as [d' Hd'].
      exists (d ++ d'), news. split; [| exact Hlen].
      rewrite <- app_assoc, <- Hd', Hd, <- app_assoc. reflexivity.
    + rewrite onMouseMove_rejected by exact Ea. rewrite Hc.
      exists d, []. split; [| reflexivity].
      cbn [putMousePosition floatingImages]. now rewrite app_nil_r.
  - rewrite onMouseLeave_state. cbn [floatingImages].
    exists d, []. split; [| reflexivity]. now rewrite app_nil_r.
  - rewrite onTouch_mounted by exact Hc. cbn [floatingImages].
    unfold keepThreeAnd.
    destruct (sliceLast_suffix 3 (floatingImages (advance now s)))
      as [d' Hd'].
    eexists (d ++ d'), [_]. split; [| reflexivity].
    rewrite <- !app_assoc, (app_assoc d'), <- Hd', Hd, <- app_assoc.
    reflexivity.
  - exists d, []. split; [| reflexivity]. now rewrite app_nil_r.
Qed.

Lemma eviction_is_oldest_first_witness :
  let s := run Sample.draws Sample.props (mount Sample.props)
             [TouchMove 1000 Sample.at_100_200;
              TouchMove 1001 Sample.at_100_200] in
  exists dropped news,
    floatingImages s ++ news
    = dropped
      ++ floatingImages (deliver Sample.draws Sample.props s (MouseLeave 1002))
    /\ news = [].
Proof.
  apply (eviction_is_oldest_first Sample.draws Sample.props
           [TouchMove 1000 Sample.at_100_200;
            TouchMove 1001 Sample.at_100_200] (MouseLeave 1002)).
  discriminate.
Defined.

(** X6. Trimming composes: the retirement after an insertion keeps the
    last 6 entries of the old list followed by the new image; a second
    retirement changes nothing; a list of at most 6 entries is left as it
    is; inserting by touch after a retirement gives the same list as
    inserting by touch without it; and a touch insertion right after a
    pointer insertion keeps that image and the two before it. *)
Theorem trims_compose
  (img img' : FloatingImage) (prev : list FloatingImage) :
  trimToSix (appendAndTrim img prev) = sliceLast 6 (prev ++ [img]) /\
  trimToSix (trimToSix prev) = trimToSix prev /\
  ((List.length prev <= 6)%nat -> trimToSix prev = prev) /\
  keepThreeAnd img (trimToSix prev) = keepThreeAnd img prev /\
  keepThreeAnd img' (appendAndTrim img prev)
  = sliceLast 2 prev ++ [img; img'].
Proof.
  unfold trimToSix, appendAndTrim, keepThreeAnd.
  split; [| split; [| split; [| split]]].
  - apply sliceLast_sliceLast. lia.
  - apply sliceLast_sliceLast. lia.
  - apply sliceLast_short.
  - f_equal. apply sliceLast_sliceLast. lia.
  - rewrite sliceLast_sliceLast by lia. rewrite sliceLast_snoc.
    now rewrite <- app_assoc.
Qed.

Lemma trims_compose_witness :
  let prev :=
    floatingImages
      (run Sample.draws Sample.props (mount Sample.props)
         [TouchMove 1000 Sample.at_100_200;
          TouchMove 1001 Sample.at_100_200]) in
  trimToSix prev = prev.
Proof.
  apply (trims_compose
           (mkFloatingImage "img-1-0" None 0 0 0 1 0)
           (mkFloatingImage "touch-2" None 0 0 0 1 0)
           (floatingImages
              (run Sample.draws Sample.props (mount Sample.props)
                 [TouchMove 1000 Sample.at_100_200;
                  TouchMove 1001 Sample.at_100_200]))).
  vm_compute. lia.
Defined.

(** ** What the render shows of the trail *)

Lemma mapiFrom_length {A B : Type} (f : A -> nat -> B) (k : nat)
  (l : list A) :
  List.length (mapiFrom f k l) = List.length l.
Proof.
  revert k. induction l as [| a l IH]; intros k; cbn; [| rewrite IH];
    reflexivity.
Qed.

Lemma mapiFrom_nth {A B : Type} (f : A -> nat -> B) (k i : nat)
  (l : list A) :
  nth_error (mapiFrom f k l) i
  = option_map (fun a => f a (k + i)%nat) (nth_error l i).
Proof.
  revert k i. induction l as [| a l IH]; intros k [| i]; cbn;
    try reflexivity.
  - now rewrite Nat.add_0_r.
  - rewrite IH. now rewrite Nat.add_succ_r.
Qed.

Lemma mapiFrom_map {A B C : Type} (f : A -> nat -> B) (g : B -> C)
  (h : A -> C) (k : nat) (l : list A) :
  (forall a i, g (f a i) = h a) ->
  map g (mapiFrom f k l) = map h l.
Proof.
  intros H. revert k. induction l as [| a l IH]; intros k; cbn;
    [reflexivity |].
  now rewrite H, IH.
Qed.

Lemma mapi_nth {A B : Type} (f : A -> nat -> B) (i : nat) (l : list A) :
  nth_error (mapi f l) i = option_map (fun a => f a i) (nth_error l i).
Proof.
  unfold mapi. now rewrite mapiFrom_nth.
Qed.

Lemma mapiFrom_priority (alt : string) (k : nat) (l : list FloatingImage) :
  (List.length
     (filter img_priority (mapiFrom (renderFloating alt) k l))
   <= 2 - k)%nat.
Proof.
  revert k. induction l as [| a l IH]; intros k; cbn [mapiFrom filter];
    [cbn; lia |].
  specialize (IH (S k)). cbn [img_priority renderFloating].
  destruct (k <? 2)%nat eqn:E.
  - apply Nat.ltb_lt in E. cbn [List.length]. lia.
  - lia.
Qed.

(** X7. For a non-empty [images] and any state, the render shows one
    floating element per list entry, in list order: the keys are the ids,
    the element at index [i] comes from the entry at index [i], is placed 80
    to the left of and 60 above the stored point, shows the entry's image
    with the alt text (default "banner"), and is loaded eagerly with
    priority exactly when [i < 2]; so at most two elements have priority.
    The container carries the three listeners and the alt text as label. *)
Theorem render_mirrors_the_list (p : BannerProps) (s : State) :
  images p <> [] ->
  exists c,
    render p s = Some c /\
    listeners c = [OnMouseMove; OnMouseLeave; OnTouchMove] /\
    ariaLabel c = withDefault "banner" (altText p) /\
    List.length (floating c) = List.length (floatingImages s) /\
    map key (floating c) = liveIds s /\
    (forall i img,
        nth_error (floatingImages s) i = Some img ->
        exists d,
          nth_error (floating c) i = Some d /\
          key d = id img /\
          style_left d = sub64 (x img) (80 # 1) /\
          style_top d = sub64 (y img) (60 # 1) /\
          img_src d = src img /\
          img_alt d = withDefault "banner" (altText p) /\
          img_priority d = (i <? 2)%nat /\
          img_loading d = (if (i <? 2)%nat then "eager" else "lazy")) /\
    (List.length (filter img_priority (floating c)) <= 2)%nat.
Proof.
  intros Hne. unfold render.
  destruct (images p) as [| a l] eqn:Ei; [congruence |].
  cbn [List.length Nat.eqb]. eexists. split; [reflexivity |].
  cbn [listeners ariaLabel floating].
  split; [reflexivity |]. split; [reflexivity |].
  split; [apply mapiFrom_length |].
  split; [apply mapiFrom_map; reflexivity |]. split.
  - intros i img Hi. eexists. rewrite mapi_nth, Hi. cbn [option_map].
    split; [reflexivity |]. cbn. repeat split.
  - pose proof (mapiFrom_priority (withDefault "banner" (altText p)) 0
                  (floatingImages s)). unfold mapi. lia.
Qed.

Lemma render_mirrors_the_list_witness :
  exists c,
    render Sample.props (mount Sample.props) = Some c /\
    listeners c = [OnMouseMove; OnMouseLeave; OnTouchMove].
Proof.
  destruct (render_mirrors_the_list Sample.props (mount Sample.props))
    as [c [Hc [Hl _]]].
  - discriminate.
  - exists c. split; [exact Hc | exact Hl].
Defined.

Lemma opacity_value (alt : string) (img : FloatingImage) (i : nat) :
  opacity (renderFloating alt img i)
  = Qmax (literal (15 # 100))
      (sub64 1 (mul64 (inject_Z (Z.of_nat i)) (literal (8 # 100)))).
Proof.
  reflexivity.
Qed.

Lemma inject_nat_le (i j : nat) :
  (i <= j)%nat -> (inject_Z (Z.of_nat i) <= inject_Z (Z.of_nat j))%Q.
Proof.
  intros H. rewrite <- Zle_Qle. lia.
Qed.

(** [1 - index * 0.08] does not grow with the index. *)
Lemma fade_antitone (i j : nat) :
  (i <= j)%nat ->
  (sub64 1 (mul64 (inject_Z (Z.of_nat j)) (literal (8 # 100)))
   <= sub64 1 (mul64 (inject_Z (Z.of_nat i)) (literal (8 # 100))))%Q.
Proof.
  intros Hij. pose proof (inject_nat_le i j Hij) as H.
  assert (Hc : (0 < literal (8 # 100))%Q) by by_computation.
  unfold sub64. apply round64_mono.
  assert (Hm : (mul64 (inject_Z (Z.of_nat i)) (literal (8 # 100))
                <= mul64 (inject_Z (Z.of_nat j)) (literal (8 # 100)))%Q).
  { unfold mul64. apply round64_mono. nra. }
  lra.
Qed.

(** X8. The opacity of the floating element at index [i],
    [Math.max(0.15, 1 - i * 0.08)] in binary64, lies between the double 0.15
    and 1, it is 1 at index 0, it does not grow with the index, it is the
    rounded [1 - i * 0.08] up to index 10 and stays at the floor, the double
    0.15, from index 11 on. *)
Theorem opacity_fades_with_the_index (alt : string) (img : FloatingImage) :
  (forall i,
      (literal (15 # 100) <= opacity (renderFloating alt img i))%Q /\
      (opacity (renderFloating alt img i) <= 1)%Q) /\
  (opacity (renderFloating alt img 0) == 1)%Q /\
  (forall i j img',
      (i <= j)%nat ->
      (opacity (renderFloating alt img' j)
       <= opacity (renderFloating alt img i))%Q) /\
  (forall i,
      (i <= 10)%nat ->
      (opacity (renderFloating alt img i)
       == sub64 1 (mul64 (inject_Z (Z.of_nat i)) (literal (8 # 100))))%Q) /\
  (forall i,
      (11 <= i)%nat ->
      (opacity (renderFloating alt img i) == literal (15 # 100))%Q).
Proof.
  split; [| split; [| split; [| split]]].
  - intros i. rewrite opacity_value. split.
    + apply Q.le_max_l.
    + apply Q.max_lub; [by_computation |].
      apply Qle_trans
        with (sub64 1 (mul64 (inject_Z (Z.of_nat 0)) (literal (8 # 100))));
        [| by_computation].
      apply fade_antitone. lia.
  - rewrite opacity_value. by_computation.
  - intros i j img' Hij. rewrite !opacity_value.
    apply Q.max_le_compat_l. now apply fade_antitone.
  - intros i Hi. rewrite opacity_value. apply Q.max_r.
    apply Qle_trans
      with (sub64 1 (mul64 (inject_Z (Z.of_nat 10)) (literal (8 # 100))));
      [by_computation |].
    now apply fade_antitone.
  - intros i Hi. rewrite opacity_value. apply Q.max_l.
    apply Qle_trans
      with (sub64 1 (mul64 (inject_Z (Z.of_nat 11)) (literal (8 # 100))));
      [| by_computation].
    now apply fade_antitone.
Qed.

Lemma opacity_fades_with_the_index_witness :
  (opacity
     (renderFloating "banner" (mkFloatingImage "img-1-0" None 0 0 0 1 0) 5)
   <= opacity
        (renderFloating "banner"
           (mkFloatingImage "img-1-0" None 0 0 0 1 0) 2))%Q.
Proof.
  apply (opacity_fades_with_the_index "banner"
           (mkFloatingImage "img-1-0" None 0 0 0 1 0)).
  lia.
Defined.

Lemma JitteredRounded_Styled (px py : Q) (img : FloatingImage) :
  JitteredRounded px py img -> Styled img.
Proof.
  unfold JitteredRounded, Styled. tauto.
Qed.

Lemma reachable_le_12 (rnd : nat -> Q) (p : BannerProps)
  (evs : list Event) :
  (List.length (floatingImages (run rnd p (mount p) evs)) <= 12)%nat.
Proof.
  apply (run_invariant rnd p
           (fun s => (List.length (floatingImages s) <= 12)%nat)
           (fun _ => True)).
  - intros s0 t _ _ H _ _. pose proof (fire_shrinks t s0). lia.
  - intros s0 ev _ H _. now apply handler_le_12.
  - apply Forall_forall. auto.
  - cbn. lia.
Qed.

Lemma reachable_styled (rnd : nat -> Q) (p : BannerProps)
  (evs : list Event) :
  InRange rnd ->
  Forall Styled (floatingImages (run rnd p (mount p) evs)).
Proof.
  intros Hr.
  assert (Hnew : forall imgs ident px py s0,
             Styled (fst (newImage rnd imgs ident px py s0))).
  { intros. eapply JitteredRounded_Styled. now apply newImage_rounded. }
  apply (run_invariant rnd p
           (fun s => Forall Styled (floatingImages s)) (fun _ => True)).
  - intros s t _ _ H _ _. rewrite fire_floatingImages.
    destruct (callback t); [now apply sliceLast_Forall | constructor].
  - intros s ev _ H _. rewrite Forall_forall in *.
    destruct ev as [now e | now | now e | now]; cbn [handlerOf].
    + intros img Hin.
      pose proof (onMouseMove_images rnd (images p) now e s Styled) as Hm.
      rewrite Forall_forall in Hm.
      destruct (Hm (fun i s0 => Hnew _ i _ _ s0) img Hin); auto.
    + rewrite onMouseLeave_state. exact H.
    + intros img Hin.
      pose proof (onTouch_images rnd (images p) now e s Styled) as Hm.
      rewrite Forall_forall in Hm.
      destruct (Hm (fun i s0 => Hnew _ i _ _ s0) img Hin); auto.
    + exact H.
  - apply Forall_forall. auto.
  - constructor.
Qed.

Lemma mapi_In {A B : Type} (f : A -> nat -> B) (l : list A) (d : B) :
  In d (mapi f l) ->
  exists i a, (i < List.length l)%nat /\ In a l /\ d = f a i.
Proof.
  intros H. apply In_nth_error in H. destruct H as [i Hi].
  rewrite mapi_nth in Hi.
  destruct (nth_error l i) as [a |] eqn:Ea; [| discriminate].
  injection Hi as <-. exists i, a. split; [| split; [| reflexivity]].
  - apply nth_error_Some. congruence.
  - eapply nth_error_In; eauto.
Qed.

(** X9. When every [Math.random()] is a double in [[0, 1)], in every state the
    component reaches every live image has [rotation] in [[-6, 6]], [scale]
    in [[0.9, 1.2]] and [zIndex] in [[0, 15)]; the render shows at most 12
    floating elements, each rotated and scaled within those ranges and
    with a z-index ([zIndex + index]) from 0 to 25. *)
Theorem rendered_trail_stays_in_range
  (rnd : nat -> Q) (p : BannerProps) (evs : list Event) :
  InRange rnd ->
  let s := run rnd p (mount p) evs in
  Forall Styled (floatingImages s) /\
  (forall c,
      render p s = Some c ->
      (List.length (floating c) <= 12)%nat /\
      (forall d,
          In d (floating c) ->
          (0 <= style_zIndex d /\ style_zIndex d < 26) /\
          (- (6) <= rotateDeg d /\ rotateDeg d <= 6)%Q /\
          ((9 # 10) <= scaleBy d /\ scaleBy d <= (12 # 10))%Q)).
Proof.
  intros Hr s.
  pose proof (reachable_styled rnd p evs Hr) as Hst. fold s in Hst.
  pose proof (reachable_le_12 rnd p evs) as H12. fold s in H12.
  split; [exact Hst |].
  intros c Hc. unfold render in Hc.
  destruct (List.length (images p) =? 0)%nat; [discriminate |].
  injection Hc as <-. cbn [floating]. split.
  - unfold mapi. now rewrite mapiFrom_length.
  - intros d Hd. apply mapi_In in Hd.
    destruct Hd as [i [img [Hi [Hin ->]]]].
    rewrite Forall_forall in Hst.
    destruct (Hst img Hin) as [Hrot [Hsc Hz]].
    cbn [renderFloating style_zIndex rotateDeg scaleBy].
    split; [lia | split; assumption].
Qed.

Lemma rendered_trail_stays_in_range_witness :
  Forall Styled
    (floatingImages
       (run Sample.doubles Sample.props (mount Sample.props)
          [MouseMove 1000 Sample.at_100_200;
           TouchMove 1010 Sample.at_100_200])).
Proof.
  apply (rendered_trail_stays_in_range Sample.doubles Sample.props
           [MouseMove 1000 Sample.at_100_200;
            TouchMove 1010 Sample.at_100_200] doubles_in_range).
Defined.

(** ** What the throttle depends on *)

Lemma handler_keeps_counter (rnd : nat -> Q) (p : BannerProps)
  (ev : Event) (s : State) :
  isMouseMove ev = false ->
  imageCounter (exec (handlerOf rnd p ev) s) = imageCounter s.
Proof.
  intros Hev.
  destruct ev as [now e | now | now e | now]; cbn [handlerOf];
    try discriminate.
  - rewrite onMouseLeave_state. reflexivity.
  - destruct (containerRef s) eqn:Ec.
    + rewrite onTouch_mounted by exact Ec. reflexivity.
    + rewrite onTouch_unmounted by exact Ec. reflexivity.
  - reflexivity.
Qed.

(** X10. The throttle reads only the time of the last accepted
    pointer-move.  Touch-moves, pointer-leaves and the passing of time leave
    the counter as it is, so with a non-empty [images], after any such
    events [more] following a reached state [s], a pointer-move at [now] is
    accepted exactly when [now] is at least 80 past the counter of [s]; the
    counter is 0 after mounting. *)
Theorem throttle_reads_only_pointer_moves
  (rnd : nat -> Q) (p : BannerProps) (evs more : list Event) (now : Z) :
  images p <> [] ->
  Forall (fun ev => isMouseMove ev = false) more ->
  let s := run rnd p (mount p) evs in
  imageCounter (mount p) = 0 /\
  imageCounter (run rnd p s more) = imageCounter s /\
  accepts (advance now (run rnd p s more)) now
  = (imageCounter s + 80 <=? now).
Proof.
  intros Hne Hmore s.
  assert (Hic : imageCounter (run rnd p s more) = imageCounter s).
  { apply (run_invariant rnd p
             (fun s' => imageCounter s' = imageCounter s)
             (fun ev => isMouseMove ev = false)).
    - intros s0 t _ _ H _ _. destruct (fire_refs t s0) as [_ [-> _]].
      exact H.
    - intros s0 ev Hev H _. now rewrite handler_keeps_counter.
    - exact Hmore.
    - reflexivity. }
  split; [reflexivity |]. split; [exact Hic |].
  unfold accepts.
  rewrite advance_containerRef, advance_imageCounter, Hic.
  unfold s at 1. rewrite <- run_app.
  rewrite reachable_containerRef by exact Hne. cbn [andb].
  destruct (now - imageCounter s <? 80) eqn:E; cbn [negb]; symmetry.
  - apply Z.ltb_lt in E. apply Z.leb_gt. lia.
  - apply Z.ltb_ge in E. apply Z.leb_le. lia.
Qed.

Lemma throttle_reads_only_pointer_moves_witness :
  let s := run Sample.draws Sample.props (mount Sample.props)
             [MouseMove 1000 Sample.at_100_200] in
  imageCounter (mount Sample.props) = 0 /\
  imageCounter
    (run Sample.draws Sample.props s
       [TouchMove 1010 Sample.at_100_200; MouseLeave 1020; Idle 1070])
  = imageCounter s /\
  accepts
    (advance 1080
       (run Sample.draws Sample.props s
          [TouchMove 1010 Sample.at_100_200; MouseLeave 1020; Idle 1070]))
    1080
  = (imageCounter s + 80 <=? 1080).
Proof.
  apply (throttle_reads_only_pointer_moves Sample.draws Sample.props
           [MouseMove 1000 Sample.at_100_200]
           [TouchMove 1010 Sample.at_100_200; MouseLeave 1020; Idle 1070]
           1080).
  - discriminate.
  - repeat constructor.
Defined.

(** ** The guard on the ref *)

(** X13. In every state the component reaches, a listener is attached
    exactly when [images] is non-empty, and then [containerRef.current] is
    set, so the early return on a missing ref at the head of [onMouseMove]
    and of [onTouch] is not taken.  When no listener is attached the ref is
    unset and delivering an event only lets the due timers run. *)
Theorem ref_guard_never_fires
  (rnd : nat -> Q) (p : BannerProps) (evs : list Event) (l : Listener) :
  let s := run rnd p (mount p) evs in
  (attached p s l = true <-> images p <> []) /\
  (attached p s l = true -> containerRef s = true) /\
  (attached p s l = false ->
   containerRef s = false /\
   forall ev, deliver rnd p s ev = advance (timeOf ev) s).
Proof.
  intros s. split; [| split].
  - split; [apply attached_nonempty | apply attached_of_nonempty].
  - intros Ha. apply reachable_containerRef.
    now apply attached_nonempty in Ha.
  - intros Ha.
    assert (Hi : images p = []).
    { destruct (images p) as [| a r] eqn:Ei; [reflexivity |].
      rewrite attached_of_nonempty in Ha; [discriminate |].
      rewrite Ei. discriminate. }
    split.
    + unfold s. rewrite run_containerRef. unfold mount.
      now rewrite (render_empty p _ Hi).
    + intros ev. unfold deliver. now apply handle_unattached.
Qed.

Lemma ref_guard_never_fires_witness :
  containerRef
    (run Sample.draws Sample.props (mount Sample.props)
       [MouseMove 1000 Sample.at_100_200; MouseLeave 1100; Idle 1300])
  = true.
Proof.
  apply (ref_guard_never_fires Sample.draws Sample.props
           [MouseMove 1000 Sample.at_100_200; MouseLeave 1100; Idle 1300]
           OnTouchMove).
  reflexivity.
Defined.

(** ** Movement postpones the retirement *)

(** X14. In a state the component reached in which no clear from a
    pointer-leave is pending, no timer callback runs before 500ms have
    passed since the last accepted burst: letting the clock reach any [now]
    below [imageCounter + 500] leaves the state, and so the list, as it is.
    Bursts accepted less than 500ms apart therefore keep postponing the
    trim to 6 entries. *)
Theorem retirement_waits_for_500ms_of_quiet
  (rnd : nat -> Q) (p : BannerProps) (evs : list Event) (now : Z) :
  let s := run rnd p (mount p) evs in
  (forall t, In t (timers s) -> callback t = TrimToSix) ->
  now < imageCounter s + 500 ->
  advance now s = s /\
  deliver rnd p s (Idle now) = s.
Proof.
  intros s Hall Hnow.
  destruct (reachable_slot rnd p evs) as [_ Hslot]. fold s in Hslot.
  assert (Ha : advance now s = s).
  { apply advance_idle. intros t Ht.
    destruct (Hslot t Ht (Hall t Ht)) as [_ Hdue]. lia. }
  split; [exact Ha |].
  unfold deliver. cbn [handle_ listenerOf timeOf]. exact Ha.
Qed.

Lemma retirement_waits_for_500ms_of_quiet_witness :
  let s := run Sample.draws Sample.props (mount Sample.props)
             [MouseMove 1000 Sample.at_100_200;
              MouseMove 1400 Sample.at_100_200] in
  advance 1899 s = s /\
  deliver Sample.draws Sample.props s (Idle 1899) = s.
Proof.
  apply (retirement_waits_for_500ms_of_quiet Sample.draws Sample.props
           [MouseMove 1000 Sample.at_100_200;
            MouseMove 1400 Sample.at_100_200] 1899).
  - assert (E : timers
                  (run Sample.draws Sample.props (mount Sample.props)
                     [MouseMove 1000 Sample.at_100_200;
                      MouseMove 1400 Sample.at_100_200])
                = [mkTimer 2 1900 TrimToSix]) by (vm_compute; reflexivity).
    rewrite E. intros t [<- | []]. reflexivity.
  - reflexivity.
Defined.
